(** * uptime-checker: the job registry, its HTTP handlers and the verifier

    A shallow embedding of [main.go].  The registry operations and the HTTP
    handlers are written as programs over the primitive statements of the Go
    source (map access, channel creation and close, ticker creation and stop,
    the id counter, [go]), so that the same definitions can be run one call
    at a time or interleaved statement by statement, as goroutines are.
    The verifier ([check], [checkJSON]) is a function of the job and of what
    the network returned for its probe. *)

From Stdlib Require Import ZArith String Ascii List Bool Sorted Lia.
From stdpp Require Import base option list gmap strings.
Import ListNotations.

Local Open Scope string_scope.
Local Open Scope Z_scope.
Local Open Scope list_scope.

(** ** Go base types *)

(** Go's [error], reduced to its message. *)
Abbreviation error := string (only parsing).

(** Go's [int], 64 bits wide: a [Z] kept in range by [wrap_int]. *)
Definition int_min : Z := - 2 ^ 63.
Definition int_max : Z := 2 ^ 63 - 1.
Definition wrap_int (n : Z) : Z := (n + 2 ^ 63) mod 2 ^ 64 - 2 ^ 63.

(** [type healthcheckId int] *)
Abbreviation healthcheckId := Z (only parsing).

(** [time.Duration]: a count of nanoseconds. *)
Abbreviation Duration := Z (only parsing).
Definition Nanosecond : Duration := 1.
Definition Microsecond : Duration := 1000 * Nanosecond.
Definition Millisecond : Duration := 1000 * Microsecond.
Definition Second : Duration := 1000 * Millisecond.
Definition Minute : Duration := 60 * Second.
Definition Hour : Duration := 60 * Minute.

(** [float64]: a finite value [mantissa * 2 ^ exponent], an infinity, or NaN. *)
Inductive float64 : Type :=
| finite (mantissa exponent : Z)
| infinite (negative : bool)
| NaN.

(** A dynamically typed Go value ([interface{}]), as [encoding/json] decodes
    it and as a jq query yields it: [nil], [bool], [int], [float64],
    [*big.Int], [string], [[]any], [map[string]any]; a query can also yield
    an [error]. *)
#[local] Unset Elimination Schemes.
Inductive any : Type :=
| any_nil
| any_bool (b : bool)
| any_int (n : Z)
| any_float64 (f : float64)
| any_bigint (n : Z)
| any_string (s : string)
| any_slice (l : list any)
| any_map (m : list (string * any))
| any_error (msg : error).
#[local] Set Elimination Schemes.

(** [v != s] for [v interface{}] and [s string]: the operands are equal only
    when the dynamic type of [v] is [string] and the strings are equal. *)
Definition any_neq_string (v : any) (s : string) : bool :=
  match v with
  | any_string s' => negb (String.eqb s' s)
  | _ => true
  end.

(** A non-nil [*gojq.Query], as the one method the program calls on it:
    [Run data] is the sequence of values the iterator returned by
    [Query.Run(data)] hands out through [Next], in order. *)
Record gojq_Query : Type := { Run : any -> list any }.

(** [iter.Next()]: the next value and whether there was one. *)
Definition Next (iter : list any) : any * bool :=
  match iter with
  | v :: _ => (v, true)
  | [] => (any_nil, false)
  end.

(** [type JqQuery struct]; [Query] is a pointer, [None] is [nil]. *)
Record JqQuery : Type := {
  Query : option gojq_Query;
  Expectation : string;
}.

(** [type HealthcheckQuery struct] *)
Record HealthcheckQuery : Type := {
  Id : healthcheckId;
  Url : string;
  Method : string;
  ExpectedStatus : Z;
  Frequency : Duration;
  JqQuery_ : JqQuery;
}.

(** The zero value, as [var healthcheck HealthcheckQuery] declares it. *)
Definition HealthcheckQuery_zero : HealthcheckQuery :=
  {| Id := 0; Url := ""; Method := ""; ExpectedStatus := 0; Frequency := 0;
     JqQuery_ := {| Query := None; Expectation := "" |} |}.

Definition set_Id (h : HealthcheckQuery) (id : healthcheckId) : HealthcheckQuery :=
  {| Id := id; Url := Url h; Method := Method h;
     ExpectedStatus := ExpectedStatus h; Frequency := Frequency h;
     JqQuery_ := JqQuery_ h |}.

(** ** The verifier *)

(** [type HealthcheckResponse struct] *)
Record HealthcheckResponse : Type := { Status : bool }.

(** What [check] writes to standard output, one constructor per
    [fmt.Printf] format of the source. *)
Inductive printed : Type :=
| MethodNotSupported (method : string)   (* "Error: method %s not supported" *)
| PrintError (err : error)               (* "Error: %v" *)
| UnexpectedStatus (got want : Z).       (* "Error: Unexpected status code, %d != %d" *)

(** The body of a response, by what the two library calls of [checkJSON]
    make of it: [io.ReadAll] fails; or it returns bytes that
    [json.Unmarshal] rejects; or bytes that decode to [data]. *)
Inductive Body : Type :=
| Unreadable (err : error)
| NotJSON (raw : string)
| JSON (raw : string) (data : any).

(** [*http.Response], the two fields the program reads. *)
Record http_Response : Type := {
  StatusCode : Z;
  Body_ : Body;
}.

(** What the network stack does with one probe: [http.NewRequest] fails,
    [httpClient.Do] fails (transport error or the 10 s timeout), or a
    response arrives. *)
Inductive Probe : Type :=
| NewRequestFails (err : error)
| DoFails (err : error)
| Responds (resp : http_Response).

Definition MethodGet : string := "GET".

(** [func checkJSON(h HealthcheckQuery, resp *http.Response) error], called
    with [h.JqQuery.Query = q] non-nil.  Returns the error ([None] is [nil])
    and what was printed. *)
Definition checkJSON (h : HealthcheckQuery) (q : gojq_Query) (resp : http_Response)
  : option error * list printed :=
  match Body_ resp with
  | Unreadable err => (Some "Error reading response body", [PrintError err])
  | NotJSON _ => (Some "Error deserializing response body", [])
  | JSON _ data =>
      let iter := Run q data in
      let '(v, ok) := Next iter in
      if negb ok then (Some "Error parsing response body", [])
      else if any_neq_string v (Expectation (JqQuery_ h)) then (Some "Expectation failed", [])
      else (None, [])
  end.

(** [func (h HealthcheckQuery) check() HealthcheckResponse] *)
Definition check (h : HealthcheckQuery) (net : Probe) : HealthcheckResponse * list printed :=
  if negb (String.eqb (Method h) MethodGet) then
    ({| Status := false |}, [MethodNotSupported (Method h)])
  else
    match net with
    | NewRequestFails err => ({| Status := false |}, [PrintError err])
    | DoFails err => ({| Status := false |}, [PrintError err])
    | Responds resp =>
        if negb (StatusCode resp =? ExpectedStatus h) then
          ({| Status := false |}, [UnexpectedStatus (StatusCode resp) (ExpectedStatus h)])
        else if negb (StatusCode resp =? ExpectedStatus h) then
          ({| Status := false |}, [UnexpectedStatus (StatusCode resp) (ExpectedStatus h)])
        else
          match Query (JqQuery_ h) with
          | Some q =>
              let '(err, out) := checkJSON h q resp in
              match err with
              | Some e => ({| Status := false |}, out ++ [PrintError e])
              | None => ({| Status := true |}, out)
              end
          | None => ({| Status := true |}, [])
          end
    end.

(** ** Decoding a job from a request body *)

(** The two library functions [UnmarshalJSON] calls on strings:
    [time.ParseDuration] and [gojq.Parse].  Each returns its value or its
    error.  The development is parametric in them. *)
Class Packages : Type := {
  time_ParseDuration : string -> Duration + error;
  gojq_Parse : string -> gojq_Query + error;
}.

(** [type marshalledJqQuery struct] *)
Record marshalledJqQuery : Type := {
  mq_Query : string;        (* `json:"query"` *)
  mq_Expectation : string;  (* `json:"expectation"` *)
}.

(** The anonymous struct [d] of [UnmarshalJSON]: the five keys the decoder
    looks for.  It has no field for ["id"]. *)
Record payload : Type := {
  d_Url : string;                          (* `json:"url"` *)
  d_Method : string;                       (* `json:"method"` *)
  d_ExpectedStatus : Z;                    (* `json:"expected_status"` *)
  d_Frequency : string;                    (* `json:"frequency"` *)
  d_JqQuery : option marshalledJqQuery;    (* `json:"jq_query"` *)
}.

(** A request body, by what [encoding/json] makes of it:
    [json.NewDecoder(r.Body).Decode] finds no well-formed JSON value and
    fails before it calls [UnmarshalJSON]; or it finds one, and
    [json.Unmarshal(data, &d)] inside [UnmarshalJSON] leaves [d] and returns
    [err] ([None] is [nil]; a value of the wrong shape gives an error and
    leaves the fields it could not fill at their zero value). *)
Inductive RequestBody : Type :=
| Malformed (err : error)
| Value (d : payload) (err : option error).

Section Decoding.
Context `{Packages}.

(** [func (h *HealthcheckQuery) UnmarshalJSON(data []byte) error], with
    the receiver passed in and returned.  [d] and [err] are the results of
    [json.Unmarshal(data, &d)]; [err] is overwritten by the result of
    [time.ParseDuration] before it is looked at. *)
Definition UnmarshalJSON (h : HealthcheckQuery) (d : payload) (err : option error)
  : HealthcheckQuery * option error :=
  let h := {| Id := Id h; Url := d_Url d; Method := d_Method d;
              ExpectedStatus := d_ExpectedStatus d; Frequency := Frequency h;
              JqQuery_ := JqQuery_ h |} in
  let '(freq, err) :=
    match time_ParseDuration (d_Frequency d) with
    | inl f => (f, None)
    | inr e => (0, Some e)
    end in
  let h := {| Id := Id h; Url := Url h; Method := Method h;
              ExpectedStatus := ExpectedStatus h; Frequency := freq;
              JqQuery_ := JqQuery_ h |} in
  match err with
  | Some e => (h, Some e)
  | None =>
      match d_JqQuery d with
      | None =>
          ({| Id := Id h; Url := Url h; Method := Method h;
              ExpectedStatus := ExpectedStatus h; Frequency := Frequency h;
              JqQuery_ := {| Query := None;
                             Expectation := Expectation (JqQuery_ h) |} |}, None)
      | Some mq =>
          match gojq_Parse (mq_Query mq) with
          | inr e => (h, Some e)
          | inl q =>
              ({| Id := Id h; Url := Url h; Method := Method h;
                  ExpectedStatus := ExpectedStatus h; Frequency := Frequency h;
                  JqQuery_ := {| Query := Some q;
                                 Expectation := mq_Expectation mq |} |}, None)
          end
      end
  end.

(** [json.NewDecoder(r.Body).Decode(&healthcheck)] *)
Definition Decode (body : RequestBody) (healthcheck : HealthcheckQuery)
  : HealthcheckQuery * option error :=
  match body with
  | Malformed err => (healthcheck, Some err)
  | Value d err => UnmarshalJSON healthcheck d err
  end.
End Decoding.

(** ** The shared state *)

(** A [chan struct{}] and a [*time.Ticker] are references into the stores
    of the state below. *)
Abbreviation chan := nat (only parsing).
Abbreviation Ticker_ref := nat (only parsing).

(** [type healthcheckJob struct] *)
Record healthcheckJob : Type := {
  healthcheck : HealthcheckQuery;
  quit : chan;
  ticker : Ticker_ref;
}.

(** A [time.Ticker]: its period, whether [Stop] was called on it, and
    whether a tick waits in its channel [C] (which has room for one). *)
Record Ticker : Type := {
  period : Duration;
  stopped : bool;
  waiting : bool;
}.

(** A goroutine started by [go h.runJob(id)]: not yet past its first
    statement; in its loop with the job it read; returned; or panicked. *)
Inductive runner : Type :=
| Spawned (id : healthcheckId)
| Looping (job : healthcheckJob)
| Exited
| Crashed (msg : string).

(** [type HealthcheckServer struct] ([healthchecks], [wg],
    [nextHealthcheckId]) together with the objects it points to: the
    channels made so far ([true] when closed), the tickers, and the
    goroutines started so far. *)
Record World : Type := {
  healthchecks : gmap Z healthcheckJob;
  wg : Z;
  nextHealthcheckId : healthcheckId;
  chans : list bool;
  tickers : list Ticker;
  goroutines : list runner;
}.

(** [func NewHealthcheckServer() HealthcheckServer] *)
Definition NewHealthcheckServer : World :=
  {| healthchecks := ∅; wg := 0; nextHealthcheckId := 0;
     chans := []; tickers := []; goroutines := [] |}.

Definition with_healthchecks (m : gmap Z healthcheckJob) (w : World) : World :=
  {| healthchecks := m; wg := wg w; nextHealthcheckId := nextHealthcheckId w;
     chans := chans w; tickers := tickers w; goroutines := goroutines w |}.
Definition with_wg (n : Z) (w : World) : World :=
  {| healthchecks := healthchecks w; wg := n; nextHealthcheckId := nextHealthcheckId w;
     chans := chans w; tickers := tickers w; goroutines := goroutines w |}.
Definition with_nextHealthcheckId (n : healthcheckId) (w : World) : World :=
  {| healthchecks := healthchecks w; wg := wg w; nextHealthcheckId := n;
     chans := chans w; tickers := tickers w; goroutines := goroutines w |}.
Definition with_chans (c : list bool) (w : World) : World :=
  {| healthchecks := healthchecks w; wg := wg w; nextHealthcheckId := nextHealthcheckId w;
     chans := c; tickers := tickers w; goroutines := goroutines w |}.
Definition with_tickers (t : list Ticker) (w : World) : World :=
  {| healthchecks := healthchecks w; wg := wg w; nextHealthcheckId := nextHealthcheckId w;
     chans := chans w; tickers := t; goroutines := goroutines w |}.
Definition with_goroutines (g : list runner) (w : World) : World :=
  {| healthchecks := healthchecks w; wg := wg w; nextHealthcheckId := nextHealthcheckId w;
     chans := chans w; tickers := tickers w; goroutines := g |}.

(** ** The statements that touch the shared state *)

(** One constructor per kind of statement of the registry operations; the
    index is the type of what the statement yields. *)
Inductive stmt : Type -> Type :=
| LoadJob (id : healthcheckId) : stmt (option healthcheckJob)
    (* job, ok := h.healthchecks[id] *)
| StoreJob (id : healthcheckId) (job : healthcheckJob) : stmt unit
    (* h.healthchecks[id] = job *)
| DeleteJob (id : healthcheckId) : stmt unit
    (* delete(h.healthchecks, id) *)
| RangeJobs : stmt (list healthcheckJob)
    (* for _, job := range h.healthchecks; Go fixes no order, the model
       takes that of [map_to_list] *)
| IncrNextId : stmt unit
    (* h.nextHealthcheckId++ *)
| LoadNextId : stmt healthcheckId
    (* h.nextHealthcheckId *)
| MakeChan : stmt chan
    (* make(chan struct{}) *)
| Close (c : chan) : stmt unit
    (* close(c) *)
| NewTicker (d : Duration) : stmt Ticker_ref
    (* time.NewTicker(d) *)
| TickerStop (t : Ticker_ref) : stmt unit
    (* t.Stop() *)
| WgAdd (delta : Z) : stmt unit
    (* h.wg.Add(delta) *)
| Go_runJob (id : healthcheckId) : stmt unit.
    (* go h.runJob(id) *)

Definition stop_ticker (t : Ticker) : Ticker :=
  {| period := period t; stopped := true; waiting := waiting t |}.

(** What one statement does to the state: the new state and the value it
    yields, or the message of the run-time panic it raises.  [close] panics
    on a closed channel, [time.NewTicker] on a non-positive period. *)
Definition run_stmt {X : Type} (s : stmt X) (w : World) : (World * X) + string :=
  match s in stmt X return (World * X) + string with
  | LoadJob id => inl (w, healthchecks w !! id)
  | StoreJob id job => inl (with_healthchecks (<[id := job]> (healthchecks w)) w, tt)
  | DeleteJob id => inl (with_healthchecks (delete id (healthchecks w)) w, tt)
  | RangeJobs => inl (w, (map_to_list (healthchecks w)).*2)
  | IncrNextId => inl (with_nextHealthcheckId (wrap_int (nextHealthcheckId w + 1)) w, tt)
  | LoadNextId => inl (w, nextHealthcheckId w)
  | MakeChan => inl (with_chans (chans w ++ [false]) w, length (chans w))
  | Close c =>
      match chans w !! c with
      | Some false => inl (with_chans (<[c := true]> (chans w)) w, tt)
      | Some true => inr "close of closed channel"
      | None => inr "close of nil channel"
      end
  | NewTicker d =>
      if d <=? 0 then inr "non-positive interval for NewTicker"
      else inl (with_tickers (tickers w ++ [{| period := d; stopped := false; waiting := false |}]) w,
                length (tickers w))
  | TickerStop t =>
      match tickers w !! t with
      | Some tk => inl (with_tickers (<[t := stop_ticker tk]> (tickers w)) w, tt)
      | None => inr "invalid memory address or nil pointer dereference"
      end
  | WgAdd delta => inl (with_wg (wg w + delta) w, tt)
  | Go_runJob id => inl (with_goroutines (goroutines w ++ [Spawned id]) w, tt)
  end.

(** A program: a value, or a statement followed by the rest of the program. *)
Inductive prog (A : Type) : Type :=
| Ret (a : A)
| Do {X : Type} (s : stmt X) (k : X -> prog A).
Arguments Ret {A} a.
Arguments Do {A X} s k.

Fixpoint prog_bind {A B : Type} (k : A -> prog B) (p : prog A) : prog B :=
  match p with
  | Ret a => k a
  | Do s k' => Do s (fun x => prog_bind k (k' x))
  end.

#[export] Instance prog_mret : MRet prog := @Ret.
#[export] Instance prog_mbind : MBind prog := @prog_bind.

Definition perform {X : Type} (s : stmt X) : prog X := Do s Ret.

(** How a call ends: it returns, or it panics part of the way through; in
    both cases the state is what its statements made of it so far. *)
Inductive outcome (A : Type) : Type :=
| Returned (w : World) (a : A)
| Panicked (w : World) (msg : string).
Arguments Returned {A} w a.
Arguments Panicked {A} w msg.

(** A program run from start to end with nothing else running. *)
Fixpoint exec {A : Type} (p : prog A) (w : World) : outcome A :=
  match p with
  | Ret a => Returned w a
  | Do s k =>
      match run_stmt s w with
      | inl (w', x) => exec (k x) w'
      | inr msg => Panicked w msg
      end
  end.

(** ** The registry operations *)

(** [func (h *HealthcheckServer) AddHealthcheck(healthcheck HealthcheckQuery) healthcheckId] *)
Definition AddHealthcheck (healthcheck : HealthcheckQuery) : prog healthcheckId :=
  perform IncrNextId ;;
  id ← perform LoadNextId ;
  let healthcheck := set_Id healthcheck id in
  quit ← perform MakeChan ;
  ticker ← perform (NewTicker (Frequency healthcheck)) ;
  id ← perform LoadNextId ;
  perform (StoreJob id {| healthcheck := healthcheck; quit := quit; ticker := ticker |}) ;;
  perform (WgAdd 1) ;;
  id ← perform LoadNextId ;
  perform (Go_runJob id) ;;
  perform LoadNextId.

(** [func (h *HealthcheckServer) UpdateHealthcheck(id healthcheckId, healthcheck HealthcheckQuery)] *)
Definition UpdateHealthcheck (id : healthcheckId) (healthcheck : HealthcheckQuery) : prog unit :=
  r ← perform (LoadJob id) ;
  match r with
  | None => mret tt
  | Some job =>
      let job := {| healthcheck := healthcheck; quit := quit job; ticker := ticker job |} in
      perform (TickerStop (ticker job)) ;;
      t ← perform (NewTicker (Frequency healthcheck)) ;
      let job := {| healthcheck := healthcheck; quit := quit job; ticker := t |} in
      perform (Close (quit job)) ;;
      c ← perform MakeChan ;
      let job := {| healthcheck := healthcheck; quit := c; ticker := ticker job |} in
      perform (WgAdd 1) ;;
      perform (StoreJob id job) ;;
      perform (Go_runJob id)
  end.

(** [func (h *HealthcheckServer) StopHealthcheck(id healthcheckId)] *)
Definition StopHealthcheck (id : healthcheckId) : prog unit :=
  r ← perform (LoadJob id) ;
  match r with
  | None => mret tt
  | Some job =>
      perform (Close (quit job)) ;;
      perform (DeleteJob id)
  end.

(** ** The HTTP handlers *)

Definition StatusOK : Z := 200.
Definition StatusCreated : Z := 201.
Definition StatusNoContent : Z := 204.
Definition StatusBadRequest : Z := 400.
Definition StatusNotFound : Z := 404.

(** What a handler hands to [json.NewEncoder(w).Encode]. *)
Inductive Encoded : Type :=
| Nothing
| Job (h : HealthcheckQuery)
| Jobs (l : list HealthcheckQuery).

(** What a handler writes: the status of [w.WriteHeader] and the value it
    encodes after it. *)
Record Response : Type := {
  code : Z;
  written : Encoded;
}.

(** A routed request: the five cases of [handle] that reach a handler. *)
Inductive Request : Type :=
| POST_jobs (body : RequestBody)
| GET_jobs
| GET_job (jobId : healthcheckId)
| DELETE_job (jobId : healthcheckId)
| PUT_job (jobId : healthcheckId) (body : RequestBody).

Section Handlers.
Context `{Packages}.

(** [func (h *HealthcheckServer) handleGetAllJobs] *)
Definition handleGetAllJobs : prog Response :=
  jobs ← perform RangeJobs ;
  mret {| code := StatusOK; written := Jobs (healthcheck <$> jobs) |}.

(** [func (h *HealthcheckServer) handleAddJob] *)
Definition handleAddJob (body : RequestBody) : prog Response :=
  let '(healthcheck, err) := Decode body HealthcheckQuery_zero in
  match err with
  | Some _ => mret {| code := StatusBadRequest; written := Nothing |}
  | None =>
      newId ← AddHealthcheck healthcheck ;
      let healthcheck := set_Id healthcheck newId in
      mret {| code := StatusCreated; written := Job healthcheck |}
  end.

(** [func (h *HealthcheckServer) handleGetJob] *)
Definition handleGetJob (jobId : healthcheckId) : prog Response :=
  r ← perform (LoadJob jobId) ;
  match r with
  | None => mret {| code := StatusNotFound; written := Nothing |}
  | Some job => mret {| code := StatusOK; written := Job (healthcheck job) |}
  end.

(** [func (h *HealthcheckServer) handleDeleteJob] *)
Definition handleDeleteJob (jobId : healthcheckId) : prog Response :=
  StopHealthcheck jobId ;;
  mret {| code := StatusNoContent; written := Nothing |}.

(** [func (h *HealthcheckServer) handlePutJob] *)
Definition handlePutJob (jobId : healthcheckId) (body : RequestBody) : prog Response :=
  let '(healthcheck, err) := Decode body HealthcheckQuery_zero in
  match err with
  | Some _ => mret {| code := StatusBadRequest; written := Nothing |}
  | None =>
      UpdateHealthcheck jobId healthcheck ;;
      let healthcheck := set_Id healthcheck jobId in
      mret {| code := StatusOK; written := Job healthcheck |}
  end.

(** [func (h *HealthcheckServer) handle], from the routed request on. *)
Definition handle (r : Request) : prog Response :=
  match r with
  | GET_jobs => handleGetAllJobs
  | POST_jobs body => handleAddJob body
  | GET_job jobId => handleGetJob jobId
  | DELETE_job jobId => handleDeleteJob jobId
  | PUT_job jobId body => handlePutJob jobId body
  end.

(** One request served with nothing else running.  A handler that panics
    writes no response: the server recovers the panic and goes on with
    the state as the handler left it. *)
Definition serve (r : Request) (w : World) : World * option Response :=
  match exec (handle r) w with
  | Returned w' resp => (w', Some resp)
  | Panicked w' _ => (w', None)
  end.

(** Requests served one after the other. *)
Fixpoint serve_all (rs : list Request) (w : World) : World * list (option Response) :=
  match rs with
  | [] => (w, [])
  | r :: rs' =>
      let '(w', resp) := serve r w in
      let '(w'', resps) := serve_all rs' w' in
      (w'', resp :: resps)
  end.
End Handlers.

(** ** The runner *)

(** The record [runJob] hands to [slog.Info] after a check. *)
Record logged : Type := {
  log_url : string;
  log_method : string;
  log_expected_status : Z;
  log_status : string;
}.

(** The clock: a tick arrives on the channel of ticker [t], unless the
    ticker is stopped or a tick already waits there. *)
Definition tick (t : Ticker_ref) (w : World) : World :=
  match tickers w !! t with
  | Some tk =>
      if stopped tk then w
      else with_tickers (<[t := {| period := period tk; stopped := false; waiting := true |}]> (tickers w)) w
  | None => w
  end.

(** The two cases of the [select] of [runJob]. *)
Inductive select_case : Type :=
| case_ticker (net : Probe)   (* <-job.ticker.C; [net] is what the probe meets *)
| case_quit.                  (* <-job.quit *)

Definition set_runner (g : nat) (r : runner) (w : World) : World :=
  with_goroutines (<[g := r]> (goroutines w)) w.

(** [func (h *HealthcheckServer) runJob(id healthcheckId)], one step of
    goroutine [g]: its first statement [job := h.healthchecks[id]], or one
    round of its [select].  [None] when the goroutine cannot take that step
    (it has ended, or the chosen case is not ready).  A goroutine that finds
    no job for its id holds the zero [healthcheckJob], whose [ticker] is
    nil: evaluating [job.ticker.C] panics.  The deferred [h.wg.Done()] runs
    when the goroutine returns or panics.  (A panic in a goroutine is not
    recovered and ends the process; here it is recorded in the state of the
    goroutine.) *)
Definition runJob_step (g : nat) (c : select_case) (w : World)
  : option (World * list printed * list logged) :=
  match goroutines w !! g with
  | Some (Spawned id) =>
      match healthchecks w !! id with
      | Some job => Some (set_runner g (Looping job) w, [], [])
      | None =>
          Some (set_runner g (Crashed "invalid memory address or nil pointer dereference")
                  (with_wg (wg w - 1) w), [], [])
      end
  | Some (Looping job) =>
      match c with
      | case_ticker net =>
          match tickers w !! ticker job with
          | Some tk =>
              if waiting tk then
                let w := with_tickers
                           (<[ticker job := {| period := period tk; stopped := stopped tk;
                                               waiting := false |}]> (tickers w)) w in
                let '(resp, out) := check (healthcheck job) net in
                let status := if Status resp then "UP" else "DOWN" in
                Some (w, out,
                      [{| log_url := Url (healthcheck job);
                          log_method := Method (healthcheck job);
                          log_expected_status := ExpectedStatus (healthcheck job);
                          log_status := status |}])
              else None
          | None => None
          end
      | case_quit =>
          match chans w !! quit job with
          | Some true =>
              match tickers w !! ticker job with
              | Some tk =>
                  Some (set_runner g Exited
                          (with_wg (wg w - 1)
                             (with_tickers (<[ticker job := stop_ticker tk]> (tickers w)) w)),
                        [], [])
              | None => None
              end
          | _ => None
          end
      end
  | _ => None
  end.

(** ** Interleaved execution *)

(** A handler in flight: it has statements left, it returned, or it
    panicked. *)
Inductive thread (A : Type) : Type :=
| Running {X : Type} (s : stmt X) (k : X -> prog A)
| Finished (a : A)
| Panicking (msg : string).
Arguments Running {A X} s k.
Arguments Finished {A} a.
Arguments Panicking {A} msg.

Definition start {A : Type} (p : prog A) : thread A :=
  match p with
  | Ret a => Finished a
  | Do s k => Running s k
  end.

(** One statement of one thread. *)
Definition thread_step {A : Type} (t : thread A) (w : World) : World * thread A :=
  match t with
  | Running s k =>
      match run_stmt s w with
      | inl (w', x) => (w', start (k x))
      | inr msg => (w, Panicking msg)
      end
  | _ => (w, t)
  end.

(** A schedule names, step by step, the thread that runs its next
    statement. *)
Fixpoint interleave {A : Type} (schedule : list nat) (w : World) (ts : list (thread A))
  : World * list (thread A) :=
  match schedule with
  | [] => (w, ts)
  | i :: schedule' =>
      match ts !! i with
      | Some t =>
          let '(w', t') := thread_step t w in
          interleave schedule' w' (<[i := t']> ts)
      | None => interleave schedule' w ts
      end
  end.

(** ** An instance of the two library functions

    Used to run the handlers on concrete requests.  [ParseDuration] follows
    [time.ParseDuration] on the strings without a decimal point: an optional
    sign, then ["0"] alone or one or more groups of digits and a unit, with
    the overflow checks of the original.  The original evaluates a decimal
    fraction in [float64]; the instance reports such a string as invalid.
    [Parse] knows two filters of jq, the identity [.] and [empty]; gojq
    itself accepts the whole language. *)
Module Sample.

Definition is_digit (c : ascii) : bool :=
  let n := Z.of_nat (nat_of_ascii c) in (48 <=? n) && (n <=? 57).

Definition is_dot (c : ascii) : bool := Ascii.eqb c ".".

(** [leadingInt]: the digits at the head of [s], as a number, and the
    rest; [None] when the number passes [1 << 63]. *)
Fixpoint leadingInt (x : Z) (s : string) : option (Z * string) :=
  match s with
  | String c s' =>
      if is_digit c then
        if x >? 2 ^ 63 / 10 then None
        else
          let x := x * 10 + (Z.of_nat (nat_of_ascii c) - 48) in
          if x >? 2 ^ 63 then None else leadingInt x s'
      else Some (x, s)
  | EmptyString => Some (x, s)
  end.

(** The unit: the characters up to the next digit or point. *)
Fixpoint unit_span (s : string) : string * string :=
  match s with
  | String c s' =>
      if is_dot c || is_digit c then ("", s)
      else let '(u, rest) := unit_span s' in (String c u, rest)
  | EmptyString => ("", "")
  end.

(** [unitMap] *)
Definition unitMap (u : string) : option Z :=
  if String.eqb u "ns" then Some Nanosecond
  else if String.eqb u "us" then Some Microsecond
  else if String.eqb u (String (ascii_of_nat 194) (String (ascii_of_nat 181) "s")) then Some Microsecond
  else if String.eqb u (String (ascii_of_nat 206) (String (ascii_of_nat 188) "s")) then Some Microsecond
  else if String.eqb u "ms" then Some Millisecond
  else if String.eqb u "s" then Some Second
  else if String.eqb u "m" then Some Minute
  else if String.eqb u "h" then Some Hour
  else None.

(** [quote], for a string of printable ASCII without quote or backslash:
    the string between two double quotes. *)
Definition quote (s : string) : string :=
  String (ascii_of_nat 34) (s ++ String (ascii_of_nat 34) "").

Definition invalid (orig : string) : error := "time: invalid duration " ++ quote orig.

(** The loop of [ParseDuration] over the groups; [d] is the sum so far. *)
Fixpoint groups (fuel : nat) (orig : string) (d : Z) (s : string) : Z + error :=
  match s, fuel with
  | EmptyString, _ => inl d
  | _, O => inr (invalid orig)
  | String c _, S fuel' =>
      if negb (is_dot c || is_digit c) then inr (invalid orig)
      else
        match leadingInt 0 s with
        | None => inr (invalid orig)
        | Some (v, s1) =>
            let pre := negb (Nat.eqb (String.length s) (String.length s1)) in
            match s1 with
            | String c1 _ =>
                if is_dot c1 then inr (invalid orig)
                else if negb pre then inr (invalid orig)
                else
                  let '(u, s2) := unit_span s1 in
                  if String.eqb u "" then inr ("time: missing unit in duration " ++ quote orig)
                  else
                    match unitMap u with
                    | None => inr ("time: unknown unit " ++ quote u ++ " in duration " ++ quote orig)
                    | Some unit =>
                        if v >? 2 ^ 63 / unit then inr (invalid orig)
                        else
                          let d := d + v * unit in
                          if d >? 2 ^ 63 then inr (invalid orig)
                          else groups fuel' orig d s2
                    end
            | EmptyString =>
                if negb pre then inr (invalid orig)
                else inr ("time: missing unit in duration " ++ quote orig)
            end
        end
  end%string.

Definition ParseDuration (orig : string) : Duration + error :=
  let '(neg, s) :=
    match orig with
    | String c s' =>
        if Ascii.eqb c "-" then (true, s')
        else if Ascii.eqb c "+" then (false, s')
        else (false, orig)
    | EmptyString => (false, orig)
    end in
  if String.eqb s "0" then inl 0
  else if String.eqb s "" then inr (invalid orig)
  else
    match groups (String.length s) orig 0 s with
    | inr e => inr e
    | inl d =>
        if neg then inl (- d)
        else if d >? 2 ^ 63 - 1 then inr (invalid orig)
        else inl d
    end.

Definition Parse (src : string) : gojq_Query + error :=
  if String.eqb src "." then inl {| Run := fun data => [data] |}
  else if String.eqb src "empty" then inl {| Run := fun _ => [] |}
  else inr ("unexpected token in " ++ src)%string.

Definition packages : Packages :=
  {| time_ParseDuration := ParseDuration; gojq_Parse := Parse |}.

(** The first request of the README. *)
Definition google : payload :=
  {| d_Url := "https://google.com"; d_Method := "GET"; d_ExpectedStatus := 200;
     d_Frequency := "2m"; d_JqQuery := None |}.

(** The update of the README. *)
Definition google_5m : payload :=
  {| d_Url := "https://google.com"; d_Method := "GET"; d_ExpectedStatus := 200;
     d_Frequency := "5m"; d_JqQuery := None |}.

End Sample.

Example ParseDuration_2m : Sample.ParseDuration "2m" = inl (2 * Minute).
Proof. reflexivity. Qed.

Example ParseDuration_1h30m : Sample.ParseDuration "1h30m" = inl (90 * Minute).
Proof. reflexivity. Qed.

Example ParseDuration_zero : Sample.ParseDuration "0" = inl 0.
Proof. reflexivity. Qed.

Example ParseDuration_negative : Sample.ParseDuration "-5s" = inl (- 5 * Second).
Proof. reflexivity. Qed.

Example ParseDuration_empty :
  Sample.ParseDuration "" = inr ("time: invalid duration " ++ Sample.quote "")%string.
Proof. reflexivity. Qed.

Example ParseDuration_no_unit :
  Sample.ParseDuration "30" = inr ("time: missing unit in duration " ++ Sample.quote "30")%string.
Proof. reflexivity. Qed.

Example ParseDuration_no_digit :
  Sample.ParseDuration "soon" = inr ("time: invalid duration " ++ Sample.quote "soon")%string.
Proof. reflexivity. Qed.

(** * Properties *)

(** ** Running a program *)

Lemma exec_bind {A B : Type} (p : prog A) (k : A -> prog B) (w : World) :
  exec (p ≫= k) w =
  match exec p w with
  | Returned w' a => exec (k a) w'
  | Panicked w' msg => Panicked w' msg
  end.
Proof.
  revert w. induction p as [a | X s k' IH]; intros w; [reflexivity |].
  change (exec (Do s k' ≫= k) w)
    with (match run_stmt s w with
          | inl (w', x) => exec (k' x ≫= k) w'
          | inr msg => Panicked w msg
          end).
  simpl. destruct (run_stmt s w) as [[w' x] | msg]; [apply IH | reflexivity].
Qed.

(** The state after [AddHealthcheck] has returned. *)
Definition added (healthcheck : HealthcheckQuery) (w : World) : World :=
  let id := wrap_int (nextHealthcheckId w + 1) in
  {| healthchecks :=
       <[id := {| healthcheck := set_Id healthcheck id;
                  quit := length (chans w);
                  ticker := length (tickers w) |}]> (healthchecks w);
     wg := wg w + 1;
     nextHealthcheckId := id;
     chans := chans w ++ [false];
     tickers := tickers w ++ [{| period := Frequency healthcheck;
                                 stopped := false; waiting := false |}];
     goroutines := goroutines w ++ [Spawned id] |}.

(** The state in which [AddHealthcheck] panics on a non-positive period:
    the counter is already incremented and the channel made. *)
Definition add_panicked (w : World) : World :=
  {| healthchecks := healthchecks w;
     wg := wg w;
     nextHealthcheckId := wrap_int (nextHealthcheckId w + 1);
     chans := chans w ++ [false];
     tickers := tickers w;
     goroutines := goroutines w |}.

Lemma exec_AddHealthcheck (healthcheck : HealthcheckQuery) (w : World) :
  exec (AddHealthcheck healthcheck) w =
  if Frequency healthcheck <=? 0
  then Panicked (add_panicked w) "non-positive interval for NewTicker"
  else Returned (added healthcheck w) (wrap_int (nextHealthcheckId w + 1)).
Proof.
  unfold AddHealthcheck, added, add_panicked. cbn.
  destruct (Frequency healthcheck <=? 0); reflexivity.
Qed.

(** The state after [UpdateHealthcheck] has returned, for a known id. *)
Definition updated (id : healthcheckId) (healthcheck : HealthcheckQuery)
    (job : healthcheckJob) (tk : Ticker) (w : World) : World :=
  {| healthchecks :=
       <[id := {| healthcheck := healthcheck;
                  quit := length (chans w);
                  ticker := length (tickers w) |}]> (healthchecks w);
     wg := wg w + 1;
     nextHealthcheckId := nextHealthcheckId w;
     chans := <[quit job := true]> (chans w) ++ [false];
     tickers := <[ticker job := stop_ticker tk]> (tickers w)
                ++ [{| period := Frequency healthcheck;
                       stopped := false; waiting := false |}];
     goroutines := goroutines w ++ [Spawned id] |}.

Lemma exec_UpdateHealthcheck (id : healthcheckId) (healthcheck : HealthcheckQuery) (w : World) :
  exec (UpdateHealthcheck id healthcheck) w =
  match healthchecks w !! id with
  | None => Returned w tt
  | Some job =>
      match tickers w !! ticker job with
      | None => Panicked w "invalid memory address or nil pointer dereference"
      | Some tk =>
          let w1 := with_tickers (<[ticker job := stop_ticker tk]> (tickers w)) w in
          if Frequency healthcheck <=? 0
          then Panicked w1 "non-positive interval for NewTicker"
          else
            match chans w !! quit job with
            | Some false => Returned (updated id healthcheck job tk w) tt
            | Some true =>
                Panicked (with_tickers (tickers w1 ++ [{| period := Frequency healthcheck;
                                                         stopped := false; waiting := false |}]) w1)
                  "close of closed channel"
            | None =>
                Panicked (with_tickers (tickers w1 ++ [{| period := Frequency healthcheck;
                                                         stopped := false; waiting := false |}]) w1)
                  "close of nil channel"
            end
      end
  end.
Proof.
  unfold UpdateHealthcheck, updated. cbn.
  destruct (healthchecks w !! id) as [job |]; [| reflexivity]. cbn.
  destruct (tickers w !! ticker job) as [tk |]; [| reflexivity]. cbn.
  destruct (Frequency healthcheck <=? 0); [reflexivity |]. cbn.
  destruct (chans w !! quit job) as [[|] |]; cbn; try reflexivity.
  rewrite !length_insert. reflexivity.
Qed.

(** The state after [StopHealthcheck] has returned, for a known id. *)
Definition stopped_job (id : healthcheckId) (job : healthcheckJob) (w : World) : World :=
  {| healthchecks := delete id (healthchecks w);
     wg := wg w;
     nextHealthcheckId := nextHealthcheckId w;
     chans := <[quit job := true]> (chans w);
     tickers := tickers w;
     goroutines := goroutines w |}.

Lemma exec_StopHealthcheck (id : healthcheckId) (w : World) :
  exec (StopHealthcheck id) w =
  match healthchecks w !! id with
  | None => Returned w tt
  | Some job =>
      match chans w !! quit job with
      | Some false => Returned (stopped_job id job w) tt
      | Some true => Panicked w "close of closed channel"
      | None => Panicked w "close of nil channel"
      end
  end.
Proof.
  unfold StopHealthcheck, stopped_job. cbn.
  destruct (healthchecks w !! id) as [job |]; [| reflexivity]. cbn.
  destruct (chans w !! quit job) as [[|] |]; reflexivity.
Qed.

Section HandlerLemmas.
Context `{Packages}.

Lemma exec_handleAddJob (body : RequestBody) (w : World) :
  exec (handleAddJob body) w =
  match Decode body HealthcheckQuery_zero with
  | (_, Some _) => Returned w {| code := StatusBadRequest; written := Nothing |}
  | (healthcheck, None) =>
      if Frequency healthcheck <=? 0
      then Panicked (add_panicked w) "non-positive interval for NewTicker"
      else Returned (added healthcheck w)
             {| code := StatusCreated;
                written := Job (set_Id healthcheck (wrap_int (nextHealthcheckId w + 1))) |}
  end.
Proof.
  unfold handleAddJob.
  destruct (Decode body HealthcheckQuery_zero) as [healthcheck [e |]]; [reflexivity |].
  rewrite exec_bind, exec_AddHealthcheck.
  destruct (Frequency healthcheck <=? 0); reflexivity.
Qed.

Lemma exec_handlePutJob (jobId : healthcheckId) (body : RequestBody) (w : World) :
  exec (handlePutJob jobId body) w =
  match Decode body HealthcheckQuery_zero with
  | (_, Some _) => Returned w {| code := StatusBadRequest; written := Nothing |}
  | (healthcheck, None) =>
      match exec (UpdateHealthcheck jobId healthcheck) w with
      | Returned w' _ =>
          Returned w' {| code := StatusOK; written := Job (set_Id healthcheck jobId) |}
      | Panicked w' msg => Panicked w' msg
      end
  end.
Proof.
  unfold handlePutJob.
  destruct (Decode body HealthcheckQuery_zero) as [healthcheck [e |]]; [reflexivity |].
  rewrite exec_bind.
  destruct (exec (UpdateHealthcheck jobId healthcheck) w); reflexivity.
Qed.

Lemma exec_handleDeleteJob (jobId : healthcheckId) (w : World) :
  exec (handleDeleteJob jobId) w =
  match exec (StopHealthcheck jobId) w with
  | Returned w' _ => Returned w' {| code := StatusNoContent; written := Nothing |}
  | Panicked w' msg => Panicked w' msg
  end.
Proof.
  unfold handleDeleteJob. rewrite exec_bind.
  destruct (exec (StopHealthcheck jobId) w); reflexivity.
Qed.

Lemma exec_handleGetJob (jobId : healthcheckId) (w : World) :
  exec (handleGetJob jobId) w =
  match healthchecks w !! jobId with
  | None => Returned w {| code := StatusNotFound; written := Nothing |}
  | Some job => Returned w {| code := StatusOK; written := Job (healthcheck job) |}
  end.
Proof.
  unfold handleGetJob. cbn. destruct (healthchecks w !! jobId); reflexivity.
Qed.

Lemma exec_handleGetAllJobs (w : World) :
  exec handleGetAllJobs w =
  Returned w {| code := StatusOK;
                written := Jobs (healthcheck <$> (map_to_list (healthchecks w)).*2) |}.
Proof. reflexivity. Qed.
End HandlerLemmas.

(** ** The stop handles of the stored jobs *)

(** Every stored job has a stop channel that is open and that no other
    stored job has, and a ticker that exists. *)
Record consistent (w : World) : Prop := {
  quit_open : forall id job,
    healthchecks w !! id = Some job -> chans w !! quit job = Some false;
  quit_own : forall id1 id2 job1 job2,
    healthchecks w !! id1 = Some job1 -> healthchecks w !! id2 = Some job2 ->
    quit job1 = quit job2 -> id1 = id2;
  ticker_made : forall id job,
    healthchecks w !! id = Some job -> is_Some (tickers w !! ticker job);
}.

Lemma consistent_new : consistent NewHealthcheckServer.
Proof. split; cbn; intros *; rewrite lookup_empty; discriminate. Qed.

(** Only the mapping, the channels and the set of tickers matter. *)
Lemma consistent_same (w w' : World) :
  healthchecks w' = healthchecks w ->
  chans w' = chans w ->
  (forall t, is_Some (tickers w !! t) -> is_Some (tickers w' !! t)) ->
  consistent w -> consistent w'.
Proof.
  intros Hm Hc Ht [Ho Hd Hk]. split.
  - intros id job. rewrite Hm, Hc. apply Ho.
  - intros id1 id2 job1 job2. rewrite Hm. apply Hd.
  - intros id job. rewrite Hm. intros Hj. apply Ht. eapply Hk, Hj.
Qed.

Lemma is_Some_lookup_insert (l : list Ticker) (i t : nat) (x : Ticker) :
  is_Some (l !! t) -> is_Some (<[i := x]> l !! t).
Proof.
  intros Hs. apply lookup_lt_is_Some. rewrite length_insert.
  by apply lookup_lt_is_Some.
Qed.

Lemma is_Some_lookup_app (l : list Ticker) (t : nat) (x : Ticker) :
  is_Some (l !! t) -> is_Some ((l ++ [x]) !! t).
Proof.
  intros Hs. apply lookup_lt_is_Some. rewrite length_app. cbn.
  apply lookup_lt_is_Some in Hs. lia.
Qed.

(** A channel just made is open and no stored job has it. *)
Lemma consistent_fresh (w : World) (id : healthcheckId) (job : healthcheckJob) :
  consistent w -> healthchecks w !! id = Some job -> (quit job < length (chans w))%nat.
Proof.
  intros [Ho _ _] Hj. eapply lookup_lt_Some, Ho, Hj.
Qed.

Lemma consistent_added (healthcheck : HealthcheckQuery) (w : World) :
  consistent w -> consistent (added healthcheck w).
Proof.
  intros Hw. pose proof Hw as [Ho Hd Hk]. unfold added. split; cbn.
  - intros id job. rewrite lookup_insert. case_decide as Hid.
    + intros [= <-]. cbn. by rewrite lookup_app_r, Nat.sub_diag.
    + intros Hj. rewrite lookup_app_l; [by eapply Ho | by eapply consistent_fresh].
  - intros id1 id2 job1 job2. rewrite !lookup_insert.
    repeat case_decide; subst; try congruence.
    + intros [= <-] Hj2. cbn. intros Hq.
      pose proof (consistent_fresh _ _ _ Hw Hj2). lia.
    + intros Hj1 [= <-]. cbn. intros Hq.
      pose proof (consistent_fresh _ _ _ Hw Hj1). lia.
    + apply Hd.
  - intros id job. rewrite lookup_insert. case_decide as Hid.
    + intros [= <-]. cbn. apply lookup_lt_is_Some. rewrite length_app. cbn. lia.
    + intros Hj. apply is_Some_lookup_app. by eapply Hk.
Qed.

Lemma consistent_add_panicked (w : World) :
  consistent w -> consistent (add_panicked w).
Proof.
  intros Hw. pose proof Hw as [Ho Hd Hk]. unfold add_panicked. split; cbn.
  - intros id job Hj. rewrite lookup_app_l; [by eapply Ho | by eapply consistent_fresh].
  - apply Hd.
  - apply Hk.
Qed.

Lemma consistent_updated (id : healthcheckId) (healthcheck : HealthcheckQuery)
    (job : healthcheckJob) (tk : Ticker) (w : World) :
  consistent w -> healthchecks w !! id = Some job ->
  consistent (updated id healthcheck job tk w).
Proof.
  intros Hw Hid. pose proof Hw as [Ho Hd Hk]. unfold updated. split; cbn.
  - intros id' job'. rewrite lookup_insert. case_decide as Hne.
    + intros [= <-]. cbn. by rewrite lookup_app_r, length_insert, Nat.sub_diag by (rewrite length_insert; lia).
    + intros Hj. rewrite lookup_app_l
        by (rewrite length_insert; by eapply consistent_fresh).
      rewrite list_lookup_insert_ne; [by eapply Ho |].
      intros Hq. apply Hne. symmetry in Hq. symmetry. by eapply Hd.
  - intros id1 id2 job1 job2. rewrite !lookup_insert.
    repeat case_decide; subst; try congruence.
    + intros [= <-] Hj2. cbn. intros Hq.
      pose proof (consistent_fresh _ _ _ Hw Hj2). lia.
    + intros Hj1 [= <-]. cbn. intros Hq.
      pose proof (consistent_fresh _ _ _ Hw Hj1). lia.
    + apply Hd.
  - intros id' job'. rewrite lookup_insert. case_decide as Hne.
    + intros [= <-]. cbn. apply lookup_lt_is_Some.
      rewrite length_app, length_insert. cbn. lia.
    + intros Hj. apply is_Some_lookup_app, is_Some_lookup_insert. by eapply Hk.
Qed.

Lemma consistent_stopped_job (id : healthcheckId) (job : healthcheckJob) (w : World) :
  consistent w -> healthchecks w !! id = Some job ->
  consistent (stopped_job id job w).
Proof.
  intros Hw Hid. pose proof Hw as [Ho Hd Hk]. unfold stopped_job. split; cbn.
  - intros id' job'. rewrite lookup_delete. case_decide as Hne; [discriminate |].
    intros Hj. rewrite list_lookup_insert_ne; [by eapply Ho |].
    intros Hq. apply Hne. by eapply Hd.
  - intros id1 id2 job1 job2. rewrite !lookup_delete.
    repeat case_decide; try discriminate. apply Hd.
  - intros id' job'. rewrite lookup_delete. case_decide; [discriminate | apply Hk].
Qed.

(** The state a call ended in. *)
Definition world_of {A : Type} (o : outcome A) : World :=
  match o with
  | Returned w _ => w
  | Panicked w _ => w
  end.

Lemma exec_UpdateHealthcheck_consistent (id : healthcheckId) (healthcheck : HealthcheckQuery)
    (w : World) :
  consistent w -> consistent (world_of (exec (UpdateHealthcheck id healthcheck) w)).
Proof.
  intros Hw. rewrite exec_UpdateHealthcheck.
  destruct (healthchecks w !! id) as [job |] eqn:Hj; [| exact Hw].
  destruct (tickers w !! ticker job) as [tk |] eqn:Ht; [| exact Hw]. cbn zeta.
  destruct (Frequency healthcheck <=? 0).
  { cbn. apply (consistent_same w); [reflexivity | reflexivity | | exact Hw].
    intros t. apply is_Some_lookup_insert. }
  destruct (chans w !! quit job) as [[|] |] eqn:Hc; cbn.
  - apply (consistent_same w); [reflexivity | reflexivity | | exact Hw].
    intros t Hs. by apply is_Some_lookup_app, is_Some_lookup_insert.
  - by apply consistent_updated.
  - apply (consistent_same w); [reflexivity | reflexivity | | exact Hw].
    intros t Hs. by apply is_Some_lookup_app, is_Some_lookup_insert.
Qed.

Lemma exec_StopHealthcheck_consistent (id : healthcheckId) (w : World) :
  consistent w -> consistent (world_of (exec (StopHealthcheck id) w)).
Proof.
  intros Hw. rewrite exec_StopHealthcheck.
  destruct (healthchecks w !! id) as [job |] eqn:Hj; [| exact Hw].
  destruct (chans w !! quit job) as [[|] |]; cbn; try exact Hw.
  by apply consistent_stopped_job.
Qed.

Lemma tick_consistent (t : Ticker_ref) (w : World) :
  consistent w -> consistent (tick t w).
Proof.
  intros Hw. unfold tick. destruct (tickers w !! t) as [tk |]; [| exact Hw].
  destruct (stopped tk); [exact Hw |].
  apply (consistent_same w); [reflexivity | reflexivity | | exact Hw].
  intros t'. apply is_Some_lookup_insert.
Qed.

Lemma runJob_step_consistent (g : nat) (c : select_case) (w w' : World)
    (out : list printed) (log : list logged) :
  runJob_step g c w = Some (w', out, log) -> consistent w -> consistent w'.
Proof.
  unfold runJob_step. intros Hstep Hw.
  destruct (goroutines w !! g) as [[id | job | | msg] |]; try discriminate.
  - destruct (healthchecks w !! id); injection Hstep as <- _ _;
      (apply (consistent_same w); [reflexivity | reflexivity | | exact Hw]); auto.
  - destruct c as [net |].
    + destruct (tickers w !! ticker job) as [tk |]; [| discriminate].
      destruct (waiting tk); [| discriminate].
      destruct (check (healthcheck job) net) as [resp out'].
      injection Hstep as <- _ _.
      apply (consistent_same w); [reflexivity | reflexivity | | exact Hw].
      intros t. apply is_Some_lookup_insert.
    + destruct (chans w !! quit job) as [[|] |]; try discriminate.
      destruct (tickers w !! ticker job) as [tk |]; [| discriminate].
      injection Hstep as <- _ _.
      apply (consistent_same w); [reflexivity | reflexivity | | exact Hw].
      intros t. apply is_Some_lookup_insert.
Qed.

Section Reachability.
Context `{Packages}.

Lemma serve_world (r : Request) (w : World) :
  (serve r w).1 = world_of (exec (handle r) w).
Proof. unfold serve. destruct (exec (handle r) w); reflexivity. Qed.

Lemma serve_consistent (r : Request) (w : World) :
  consistent w -> consistent (serve r w).1.
Proof.
  intros Hw. rewrite serve_world. destruct r as [body | | jobId | jobId | jobId body]; cbn [handle].
  - rewrite exec_handleAddJob.
    destruct (Decode body HealthcheckQuery_zero) as [healthcheck [e |]]; [exact Hw |].
    destruct (Frequency healthcheck <=? 0); cbn;
      [by apply consistent_add_panicked | by apply consistent_added].
  - rewrite exec_handleGetAllJobs. exact Hw.
  - rewrite exec_handleGetJob. destruct (healthchecks w !! jobId); exact Hw.
  - rewrite exec_handleDeleteJob.
    pose proof (exec_StopHealthcheck_consistent jobId w Hw) as Hs.
    destruct (exec (StopHealthcheck jobId) w); exact Hs.
  - rewrite exec_handlePutJob.
    destruct (Decode body HealthcheckQuery_zero) as [healthcheck [e |]]; [exact Hw |].
    pose proof (exec_UpdateHealthcheck_consistent jobId healthcheck w Hw) as Hs.
    destruct (exec (UpdateHealthcheck jobId healthcheck) w); exact Hs.
Qed.

(** The states the server can be in when requests are served one at a
    time: between two requests the runners and the clock may take any
    number of steps. *)
Inductive reachable : World -> Prop :=
| reachable_new : reachable NewHealthcheckServer
| reachable_serve (r : Request) (w : World) :
    reachable w -> reachable (serve r w).1
| reachable_runJob (g : nat) (c : select_case) (w w' : World)
      (out : list printed) (log : list logged) :
    reachable w -> runJob_step g c w = Some (w', out, log) -> reachable w'
| reachable_tick (t : Ticker_ref) (w : World) :
    reachable w -> reachable (tick t w).

Lemma reachable_consistent (w : World) : reachable w -> consistent w.
Proof.
  induction 1 as [| r w _ IH | g c w w' out log _ IH Hstep | t w _ IH].
  - apply consistent_new.
  - by apply serve_consistent.
  - by eapply runJob_step_consistent.
  - by apply tick_consistent.
Qed.

Lemma reachable_serve_all (rs : list Request) (w : World) :
  reachable w -> reachable (serve_all rs w).1.
Proof.
  revert w. induction rs as [| r rs IH]; intros w Hw; [exact Hw |].
  cbn. destruct (serve r w) as [w' resp] eqn:Hs.
  specialize (IH w'). destruct (serve_all rs w') as [w'' resps]. cbn in *.
  apply IH. replace w' with (serve r w).1 by (by rewrite Hs).
  by apply reachable_serve.
Qed.
End Reachability.

(** ** The verifier *)

Lemma negb_eqb_MethodGet (h : HealthcheckQuery) :
  negb (String.eqb (Method h) MethodGet) = false <-> Method h = MethodGet.
Proof. rewrite negb_false_iff. apply String.eqb_eq. Qed.

Lemma any_neq_string_false (v : any) (s : string) :
  any_neq_string v s = false <-> v = any_string s.
Proof.
  destruct v; cbn; try (split; [discriminate | intros [=]]).
  rewrite negb_false_iff, String.eqb_eq. split; [by intros -> | by intros [= ->]].
Qed.

(** C3.  The order of a check: a job whose method is not GET fails whatever
    the network does; with method GET, a request that cannot be built or
    sent fails; with a response, a status code other than [ExpectedStatus]
    fails; with the expected status code and no query configured, the check
    passes.  What is printed names the reason. *)
Theorem check_order (h : HealthcheckQuery) :
  (Method h <> MethodGet ->
     forall net, check h net = ({| Status := false |}, [MethodNotSupported (Method h)]))
  /\ (Method h = MethodGet ->
        (forall err, check h (NewRequestFails err) = ({| Status := false |}, [PrintError err]))
        /\ (forall err, check h (DoFails err) = ({| Status := false |}, [PrintError err]))
        /\ (forall resp, StatusCode resp <> ExpectedStatus h ->
              check h (Responds resp) =
              ({| Status := false |}, [UnexpectedStatus (StatusCode resp) (ExpectedStatus h)]))
        /\ (forall resp, StatusCode resp = ExpectedStatus h ->
              Query (JqQuery_ h) = None ->
              check h (Responds resp) = ({| Status := true |}, []))).
Proof.
  split.
  - intros Hm net. unfold check.
    destruct (negb (String.eqb (Method h) MethodGet)) eqn:E; [reflexivity |].
    apply negb_eqb_MethodGet in E. contradiction.
  - intros Hm. apply negb_eqb_MethodGet in Hm. unfold check. rewrite Hm.
    repeat split; try reflexivity.
    + intros resp Hne. apply Z.eqb_neq in Hne. by rewrite Hne.
    + intros resp Heq Hq. apply Z.eqb_eq in Heq. by rewrite Heq, Hq.
Qed.

(** C4.  A job with a query, method GET, and a response with the expected
    status code: a body that cannot be read or is not JSON fails the check;
    a query with no result fails it; otherwise the check passes exactly when
    the first result is the string [Expectation], whatever results follow. *)
Theorem check_query (h : HealthcheckQuery) (q : gojq_Query) (resp : http_Response) :
  Method h = MethodGet ->
  StatusCode resp = ExpectedStatus h ->
  Query (JqQuery_ h) = Some q ->
  (forall err, Body_ resp = Unreadable err -> Status (check h (Responds resp)).1 = false)
  /\ (forall raw, Body_ resp = NotJSON raw ->
        check h (Responds resp) =
        ({| Status := false |}, [PrintError "Error deserializing response body"]))
  /\ (forall raw data, Body_ resp = JSON raw data -> Run q data = [] ->
        check h (Responds resp) =
        ({| Status := false |}, [PrintError "Error parsing response body"]))
  /\ (forall raw data v rest, Body_ resp = JSON raw data -> Run q data = v :: rest ->
        (Status (check h (Responds resp)).1 = true <-> v = any_string (Expectation (JqQuery_ h)))
        /\ (v <> any_string (Expectation (JqQuery_ h)) ->
              check h (Responds resp) =
              ({| Status := false |}, [PrintError "Expectation failed"]))).
Proof.
  intros Hm Hs Hq. apply negb_eqb_MethodGet in Hm. apply Z.eqb_eq in Hs.
  unfold check, checkJSON. rewrite Hm, Hs, Hq. cbn [negb].
  split; [| split; [| split]].
  - intros err ->. reflexivity.
  - intros raw ->. reflexivity.
  - intros raw data -> ->. reflexivity.
  - intros raw data v rest -> ->. cbn.
    destruct (any_neq_string v (Expectation (JqQuery_ h))) eqn:E; cbn.
    + split; [split; [discriminate |] | reflexivity].
      intros ->.
      assert (any_neq_string (any_string (Expectation (JqQuery_ h)))
                (Expectation (JqQuery_ h)) = false) as E'
        by (by apply any_neq_string_false).
      congruence.
    + apply any_neq_string_false in E.
      split; [split; [by intros _ | reflexivity] | contradiction].
Qed.

(** ** Decoding *)

Section DecodingLemmas.
Context `{Packages}.

(** [UnmarshalJSON] never assigns [h.Id]. *)
Lemma UnmarshalJSON_Id (h : HealthcheckQuery) (d : payload) (err : option error) :
  Id (UnmarshalJSON h d err).1 = Id h.
Proof.
  unfold UnmarshalJSON.
  destruct (time_ParseDuration (d_Frequency d)) as [f | e]; [| reflexivity].
  destruct (d_JqQuery d) as [mq |]; [| reflexivity].
  destruct (gojq_Parse (mq_Query mq)); reflexivity.
Qed.

Lemma Decode_Id (body : RequestBody) (h : HealthcheckQuery) :
  Id (Decode body h).1 = Id h.
Proof. destruct body; [reflexivity | apply UnmarshalJSON_Id]. Qed.

(** The bodies [Decode] fails on: no well-formed JSON value, a frequency
    that [time.ParseDuration] rejects, or a query that [gojq.Parse]
    rejects. *)
Definition undecodable (body : RequestBody) : Prop :=
  match body with
  | Malformed _ => True
  | Value d _ =>
      (exists e, time_ParseDuration (d_Frequency d) = inr e)
      \/ (exists f mq e, time_ParseDuration (d_Frequency d) = inl f
                         /\ d_JqQuery d = Some mq /\ gojq_Parse (mq_Query mq) = inr e)
  end.

Lemma Decode_error (body : RequestBody) (h : HealthcheckQuery) :
  is_Some (Decode body h).2 <-> undecodable body.
Proof.
  destruct body as [err | d err]; cbn.
  - split; [done | by eexists].
  - unfold UnmarshalJSON.
    destruct (time_ParseDuration (d_Frequency d)) as [f | e]; cbn.
    + destruct (d_JqQuery d) as [mq |]; cbn.
      * destruct (gojq_Parse (mq_Query mq)) as [q | e] eqn:Hq; cbn.
        -- split; [intros [? [=]] |].
           intros [[e [=]] | (f' & mq' & e & _ & [= <-] & Hq')]. congruence.
        -- split; [| by eexists]. intros _. right. by exists f, mq, e.
      * split; [intros [? [=]] |].
        intros [[e [=]] | (f' & mq' & e & _ & [=] & _)].
    + split; [| by eexists]. intros _. left. by exists e.
Qed.

(** What [Decode] makes of a body it accepts: the fields of the payload,
    whatever the method is and whatever the sign of the duration. *)
Lemma Decode_accepts (d : payload) (err : option error) (f : Duration) :
  time_ParseDuration (d_Frequency d) = inl f ->
  d_JqQuery d = None ->
  Decode (Value d err) HealthcheckQuery_zero =
  ({| Id := 0; Url := d_Url d; Method := d_Method d;
      ExpectedStatus := d_ExpectedStatus d; Frequency := f;
      JqQuery_ := {| Query := None; Expectation := "" |} |}, None).
Proof. intros Hf Hq. cbn. unfold UnmarshalJSON. by rewrite Hf, Hq. Qed.
End DecodingLemmas.

(** ** The registry through its handlers *)

Lemma wrap_int_succ (n : Z) : int_min <= n < int_max -> wrap_int (n + 1) = n + 1.
Proof.
  unfold int_min, int_max, wrap_int. intros Hn.
  rewrite Z.mod_small by lia. lia.
Qed.

Section Registry.
Context `{Packages}.

(** C1, as amended.  [UpdateHealthcheck] on an id that is not a key of the
    mapping returns with the whole state as it was: mapping, stored jobs,
    counter, channels, tickers and goroutines.  It has no result, and
    [handlePutJob] answers such a request with 200 OK and the decoded
    job, its id set to the requested one (400 when the body does not
    decode); it never answers 404. *)
Theorem Update_unknown_id (w : World) (id : healthcheckId) :
  healthchecks w !! id = None ->
  (forall healthcheck, exec (UpdateHealthcheck id healthcheck) w = Returned w tt)
  /\ (forall body,
        serve (PUT_job id body) w =
        match Decode body HealthcheckQuery_zero with
        | (_, Some _) => (w, Some {| code := StatusBadRequest; written := Nothing |})
        | (healthcheck, None) =>
            (w, Some {| code := StatusOK; written := Job (set_Id healthcheck id) |})
        end).
Proof.
  intros Hid.
  assert (forall healthcheck, exec (UpdateHealthcheck id healthcheck) w = Returned w tt) as Hu.
  { intros healthcheck. by rewrite exec_UpdateHealthcheck, Hid. }
  split; [exact Hu |].
  intros body. unfold serve. cbn [handle]. rewrite exec_handlePutJob.
  destruct (Decode body HealthcheckQuery_zero) as [healthcheck [e |]]; [reflexivity |].
  by rewrite Hu.
Qed.

(** C2.  What the code does where the claim asks for the id to be kept:
    for a known id and a body that decodes to [healthcheck] with a
    positive frequency, [handlePutJob] stores [healthcheck] as decoded.
    The answer to the PUT carries the requested id, but the stored job,
    which a later GET of the id returns and the list shows, carries the
    [Id] of the decoded value, which is 0. *)
Theorem Update_stores_decoded_Id (w : World) (jobId : healthcheckId) (body : RequestBody)
    (healthcheck : HealthcheckQuery) :
  reachable w ->
  is_Some (healthchecks w !! jobId) ->
  Decode body HealthcheckQuery_zero = (healthcheck, None) ->
  0 < Frequency healthcheck ->
  exists w',
    serve (PUT_job jobId body) w =
      (w', Some {| code := StatusOK; written := Job (set_Id healthcheck jobId) |})
    /\ serve (GET_job jobId) w' =
         (w', Some {| code := StatusOK; written := Job healthcheck |})
    /\ (exists l, serve GET_jobs w' = (w', Some {| code := StatusOK; written := Jobs l |})
                  /\ healthcheck ∈ l)
    /\ Id healthcheck = 0.
Proof.
  intros Hw [job Hj] Hd Hf. apply reachable_consistent in Hw.
  destruct (ticker_made w Hw jobId job Hj) as [tk Ht].
  pose proof (quit_open w Hw jobId job Hj) as Hc.
  exists (updated jobId healthcheck job tk w).
  assert (healthchecks (updated jobId healthcheck job tk w) !! jobId =
          Some {| healthcheck := healthcheck; quit := length (chans w);
                  ticker := length (tickers w) |}) as Hl
    by (cbn; apply lookup_insert_eq).
  repeat split.
  - unfold serve. cbn [handle]. rewrite exec_handlePutJob, Hd, exec_UpdateHealthcheck, Hj, Ht.
    cbn zeta. destruct (Z.leb_spec (Frequency healthcheck) 0) as [Hle |]; [lia |].
    by rewrite Hc.
  - unfold serve. cbn [handle]. by rewrite exec_handleGetJob, Hl.
  - eexists. split; [unfold serve; cbn [handle]; by rewrite exec_handleGetAllJobs |].
    apply list_elem_of_fmap.
    exists {| healthcheck := healthcheck; quit := length (chans w);
              ticker := length (tickers w) |}.
    split; [reflexivity |]. apply list_elem_of_fmap.
    exists (jobId, {| healthcheck := healthcheck; quit := length (chans w);
                      ticker := length (tickers w) |}).
    split; [reflexivity |]. apply elem_of_map_to_list, Hl.
  - pose proof (Decode_Id body HealthcheckQuery_zero) as Hi. by rewrite Hd in Hi.
Qed.


(** C10.  A creation request whose body decodes, with a positive
    frequency, is answered 201 Created with the id [nextHealthcheckId + 1]
    (in Go's [int]), under which the job is stored and which becomes the
    new counter.  The body has no part in it: decoding leaves the [Id] of
    the job as it was (0 in [handleAddJob]), and [AddHealthcheck] does the
    same whatever [Id] the job it is given carries. *)
Theorem Add_id_from_counter (w : World) (body : RequestBody) (decoded : HealthcheckQuery) :
  Decode body HealthcheckQuery_zero = (decoded, None) ->
  0 < Frequency decoded ->
  (exists w',
      serve (POST_jobs body) w =
        (w', Some {| code := StatusCreated;
                     written := Job (set_Id decoded (wrap_int (nextHealthcheckId w + 1))) |})
      /\ nextHealthcheckId w' = wrap_int (nextHealthcheckId w + 1)
      /\ exists job,
           healthchecks w' !! wrap_int (nextHealthcheckId w + 1) = Some job
           /\ healthcheck job = set_Id decoded (wrap_int (nextHealthcheckId w + 1)))
  /\ (int_min <= nextHealthcheckId w < int_max ->
        wrap_int (nextHealthcheckId w + 1) = nextHealthcheckId w + 1)
  /\ (forall h0, Id (Decode body h0).1 = Id h0)
  /\ (forall i, exec (AddHealthcheck (set_Id decoded i)) w =
                exec (AddHealthcheck decoded) w).
Proof.
  intros Hd Hf. split; [| split; [apply wrap_int_succ | split; [apply Decode_Id |]]].
  - exists (added decoded w). split; [| split; [reflexivity |]].
    + unfold serve. cbn [handle]. rewrite exec_handleAddJob, Hd.
      destruct (Z.leb_spec (Frequency decoded) 0) as [Hle |]; [lia | reflexivity].
    + eexists. split; [cbn; apply lookup_insert_eq | reflexivity].
  - intros i. rewrite !exec_AddHealthcheck. reflexivity.
Qed.

Definition bad_request : Response := {| code := StatusBadRequest; written := Nothing |}.

(** A creation or update body is answered 400 Bad Request, with the state
    unchanged, exactly when it does not decode. *)
Lemma bad_request_iff_undecodable (w : World) (body : RequestBody) (jobId : healthcheckId) :
  (undecodable body <-> serve (POST_jobs body) w = (w, Some bad_request))
  /\ (undecodable body <-> serve (PUT_job jobId body) w = (w, Some bad_request)).
Proof.
  pose proof (Decode_error body HealthcheckQuery_zero) as Hu.
  unfold serve. cbn [handle]. rewrite exec_handleAddJob, exec_handlePutJob.
  destruct (Decode body HealthcheckQuery_zero) as [healthcheck [e |]]; cbn in Hu.
  - assert (undecodable body) by (apply Hu; by eexists). by split; split.
  - assert (~ undecodable body) as Hn by (intros Hb; apply Hu in Hb; by destruct Hb).
    split; split; try contradiction; intros Hs; exfalso.
    + destruct (Frequency healthcheck <=? 0); discriminate.
    + destruct (exec (UpdateHealthcheck jobId healthcheck) w); discriminate.
Qed.

Lemma UnmarshalJSON_Method (h decoded : HealthcheckQuery) (d : payload) (err : option error) :
  UnmarshalJSON h d err = (decoded, None) -> Method decoded = d_Method d.
Proof.
  unfold UnmarshalJSON.
  destruct (time_ParseDuration (d_Frequency d)) as [f | e]; [| discriminate].
  destruct (d_JqQuery d) as [mq |]; [| by intros [= <-]].
  destruct (gojq_Parse (mq_Query mq)); [by intros [= <-] | discriminate].
Qed.

(** C8, as amended.  A creation or update body that does not decode (it
    holds no well-formed JSON value, or [time.ParseDuration] rejects its
    frequency, or [gojq.Parse] rejects its query) is answered 400 Bad
    Request and the state is unchanged.  The method is not examined: a body
    that decodes, with a positive frequency, is admitted with the method it
    names, whatever that is; a creation is answered 201 and the job is
    stored with that method, and so is the update of a known id, answered
    200. *)
Theorem undecodable_rejected (w : World) (body : RequestBody) (jobId : healthcheckId) :
  (undecodable body ->
     serve (POST_jobs body) w = (w, Some bad_request)
     /\ serve (PUT_job jobId body) w = (w, Some bad_request))
  /\ (forall d err decoded,
        body = Value d err ->
        Decode body HealthcheckQuery_zero = (decoded, None) ->
        0 < Frequency decoded ->
        Method decoded = d_Method d
        /\ (exists w' job,
              serve (POST_jobs body) w =
                (w', Some {| code := StatusCreated;
                             written := Job (set_Id decoded (wrap_int (nextHealthcheckId w + 1))) |})
              /\ healthchecks w' !! wrap_int (nextHealthcheckId w + 1) = Some job
              /\ Method (healthcheck job) = d_Method d)
        /\ (reachable w -> is_Some (healthchecks w !! jobId) ->
              exists w' job,
                serve (PUT_job jobId body) w =
                  (w', Some {| code := StatusOK; written := Job (set_Id decoded jobId) |})
                /\ healthchecks w' !! jobId = Some job
                /\ Method (healthcheck job) = d_Method d)).
Proof.
  split.
  - intros Hu. split; by apply bad_request_iff_undecodable.
  - intros d err decoded -> Hd Hf.
    pose proof (UnmarshalJSON_Method HealthcheckQuery_zero decoded d err Hd) as Hm.
    split; [exact Hm |]. split.
    + exists (added decoded w). eexists. split; [| split; [cbn; apply lookup_insert_eq | exact Hm]].
      unfold serve. cbn [handle]. rewrite exec_handleAddJob, Hd.
      destruct (Z.leb_spec (Frequency decoded) 0) as [Hle |]; [lia | reflexivity].
    + intros Hw [job Hj]. apply reachable_consistent in Hw.
      destruct (ticker_made w Hw jobId job Hj) as [tk Ht].
      exists (updated jobId decoded job tk w). eexists.
      split; [| split; [cbn; apply lookup_insert_eq | exact Hm]].
      unfold serve. cbn [handle]. rewrite exec_handlePutJob, Hd, exec_UpdateHealthcheck, Hj, Ht.
      cbn zeta. destruct (Z.leb_spec (Frequency decoded) 0) as [Hle |]; [lia |].
      by rewrite (quit_open w Hw jobId job Hj).
Qed.

(** *** Ids *)

Definition add_or_delete (r : Request) : Prop :=
  match r with
  | POST_jobs _ | DELETE_job _ => True
  | _ => False
  end.

(** The id a response announces: the id of the job in a 201 Created. *)
Definition created_id (resp : option Response) : option healthcheckId :=
  match resp with
  | Some {| code := c; written := Job h |} =>
      if c =? StatusCreated then Some (Id h) else None
  | _ => None
  end.

Definition created_ids (resps : list (option Response)) : list healthcheckId :=
  omap created_id resps.

(** Every key is positive, at most the counter, and the [Id] of its job. *)
Definition keys_ok (w : World) : Prop :=
  forall id job, healthchecks w !! id = Some job ->
    0 < id <= nextHealthcheckId w /\ Id (healthcheck job) = id.

(** What one request does to the counter and the keys. *)
Definition step_ok (w : World) (after : World * option Response) : Prop :=
  keys_ok after.1
  /\ nextHealthcheckId w <= nextHealthcheckId after.1 <= nextHealthcheckId w + 1
  /\ (forall id, created_id after.2 = Some id ->
        id = nextHealthcheckId w + 1 /\ nextHealthcheckId after.1 = id)
  /\ (forall id job, healthchecks after.1 !! id = Some job ->
        healthchecks w !! id = Some job \/ created_id after.2 = Some id).

Lemma step_ok_same (w : World) (resp : option Response) :
  keys_ok w -> created_id resp = None -> step_ok w (w, resp).
Proof.
  intros Hk Hc. unfold step_ok. cbn [fst snd]. rewrite Hc.
  split; [exact Hk |]. split; [lia |]. split; [discriminate | by left].
Qed.

Lemma serve_add_or_delete (r : Request) (w : World) :
  add_or_delete r -> 0 <= nextHealthcheckId w < int_max -> keys_ok w ->
  step_ok w (serve r w).
Proof.
  intros Hr Hn Hk.
  assert (wrap_int (nextHealthcheckId w + 1) = nextHealthcheckId w + 1) as Hwrap
    by (apply wrap_int_succ; unfold int_min; lia).
  destruct r as [body | | jobId | jobId | jobId body]; try contradiction;
    unfold serve; cbn [handle].
  - rewrite exec_handleAddJob.
    destruct (Decode body HealthcheckQuery_zero) as [decoded [e |]];
      [by apply step_ok_same |].
    destruct (Frequency decoded <=? 0); unfold step_ok; cbn; rewrite Hwrap.
    + split; [| split; [lia | split; [discriminate | by left]]].
      intros id job Hj. cbn in *. rewrite Hwrap. apply Hk in Hj. lia.
    + split; [| split; [lia | split; [by intros id [= <-] |]]].
      * intros id job. cbn. rewrite Hwrap, lookup_insert. case_decide as Hid.
        -- intros [= <-]. cbn. lia.
        -- intros Hj. apply Hk in Hj. lia.
      * intros id job. rewrite lookup_insert. case_decide as Hid; [| by left].
        intros _. right. by rewrite Hid.
  - rewrite exec_handleDeleteJob, exec_StopHealthcheck.
    destruct (healthchecks w !! jobId) as [job |] eqn:Hj; [| by apply step_ok_same].
    destruct (chans w !! quit job) as [[|] |]; try (by apply step_ok_same).
    unfold step_ok. cbn.
    split; [| split; [lia | split; [discriminate |]]].
    + intros id job'. cbn. rewrite lookup_delete. case_decide; [discriminate | apply Hk].
    + intros id job'. rewrite lookup_delete. case_decide; [discriminate | by left].
Qed.

Lemma serve_all_ids (rs : list Request) (w : World) :
  Forall add_or_delete rs ->
  0 <= nextHealthcheckId w ->
  nextHealthcheckId w + Z.of_nat (length rs) <= int_max ->
  keys_ok w ->
  keys_ok (serve_all rs w).1
  /\ nextHealthcheckId w <= nextHealthcheckId (serve_all rs w).1
                         <= nextHealthcheckId w + Z.of_nat (length rs)
  /\ Forall (fun id => nextHealthcheckId w < id <= nextHealthcheckId (serve_all rs w).1)
       (created_ids (serve_all rs w).2)
  /\ StronglySorted Z.lt (created_ids (serve_all rs w).2)
  /\ (forall id job, healthchecks (serve_all rs w).1 !! id = Some job ->
        healthchecks w !! id = Some job \/ id ∈ created_ids (serve_all rs w).2).
Proof.
  revert w. induction rs as [| r rs IH]; intros w Hrs Hn Hlen Hk.
  { cbn. split; [exact Hk |]. split; [lia |].
    split; [constructor |]. split; [constructor | by left]. }
  inversion Hrs as [| ? ? Hr Hrs']; subst. cbn [length] in Hlen.
  destruct (serve_add_or_delete r w Hr ltac:(lia) Hk) as (Hk1 & Hn1 & Hid1 & Hm1).
  cbn [serve_all]. destruct (serve r w) as [w1 resp]. cbn [fst snd] in *.
  destruct (IH w1 Hrs' ltac:(lia) ltac:(lia) Hk1) as (Hk2 & Hn2 & Hids2 & Hs2 & Hm2).
  destruct (serve_all rs w1) as [w2 resps]. cbn [fst snd] in *.
  split; [exact Hk2 |]. split; [cbn [length]; lia |].
  unfold created_ids in *. cbn [omap list_omap].
  destruct (created_id resp) as [id |] eqn:Hc.
  - destruct (Hid1 id eq_refl) as [-> Hn1'].
    split; [| split].
    + constructor; [lia |]. eapply Forall_impl; [exact Hids2 |]. cbn. intros; lia.
    + constructor; [exact Hs2 |]. eapply Forall_impl; [exact Hids2 |]. cbn. intros; lia.
    + intros id job Hj. destruct (Hm2 id job Hj) as [Hj1 | Hin].
      * destruct (Hm1 id job Hj1) as [Hj0 | [= <-]]; [by left | right; left].
      * right. by right.
  - split; [| split; [exact Hs2 |]].
    + eapply Forall_impl; [exact Hids2 |]. cbn. intros; lia.
    + intros id job Hj. destruct (Hm2 id job Hj) as [Hj1 | Hin]; [| by right].
      destruct (Hm1 id job Hj1) as [Hj0 | [=]]. by left.
Qed.

Lemma StronglySorted_lt_NoDup (l : list Z) : StronglySorted Z.lt l -> NoDup l.
Proof.
  induction 1 as [| x l _ IH Hx]; constructor; [| exact IH].
  intros Hin. rewrite Forall_forall in Hx. specialize (Hx x Hin). lia.
Qed.

(** C7.  Requests that add and delete jobs, served one after the other
    from a new server, fewer than 2^63 of them: the ids announced by the
    201 responses are positive and each is greater than all announced
    before it, so no id is handed out twice, deleted or not; and every
    job in the mapping is stored under an id that was announced and
    carries that id as its [Id], so the live jobs have distinct ids. *)
Theorem ids_never_reused (rs : list Request) :
  Forall add_or_delete rs ->
  Z.of_nat (length rs) <= int_max ->
  Forall (fun id => 0 < id) (created_ids (serve_all rs NewHealthcheckServer).2)
  /\ StronglySorted Z.lt (created_ids (serve_all rs NewHealthcheckServer).2)
  /\ NoDup (created_ids (serve_all rs NewHealthcheckServer).2)
  /\ (forall id job,
        healthchecks (serve_all rs NewHealthcheckServer).1 !! id = Some job ->
        Id (healthcheck job) = id
        /\ id ∈ created_ids (serve_all rs NewHealthcheckServer).2).
Proof.
  intros Hrs Hlen.
  assert (keys_ok NewHealthcheckServer) as Hk0
    by (intros id job; cbn; rewrite lookup_empty; discriminate).
  destruct (serve_all_ids rs NewHealthcheckServer Hrs ltac:(cbn; lia) ltac:(cbn; lia) Hk0)
    as (Hk & _ & Hids & Hs & Hm).
  split; [| split; [exact Hs | split; [by apply StronglySorted_lt_NoDup |]]].
  - eapply Forall_impl; [exact Hids |]. cbn. intros; lia.
  - intros id job Hj. split; [by destruct (Hk id job Hj) |].
    destruct (Hm id job Hj) as [Hj0 | Hin]; [| exact Hin].
    cbn in Hj0. by rewrite lookup_empty in Hj0.
Qed.

(** *** Stop handles when requests are served one at a time *)

Lemma serve_DELETE_responds (w : World) (jobId : healthcheckId) :
  consistent w ->
  (serve (DELETE_job jobId) w).2 = Some {| code := StatusNoContent; written := Nothing |}.
Proof.
  intros Hw. unfold serve. cbn [handle]. rewrite exec_handleDeleteJob, exec_StopHealthcheck.
  destruct (healthchecks w !! jobId) as [job |] eqn:Hj; [| reflexivity].
  by rewrite (quit_open w Hw jobId job Hj).
Qed.

(** In a consistent state the only panic of a handler is that of
    [time.NewTicker] on a non-positive period. *)
Lemma handle_panics_only_in_NewTicker (w w' : World) (r : Request) (msg : string) :
  consistent w ->
  exec (handle r) w = Panicked w' msg ->
  msg = "non-positive interval for NewTicker".
Proof.
  intros Hw. destruct r as [body | | jobId | jobId | jobId body]; cbn [handle].
  - rewrite exec_handleAddJob.
    destruct (Decode body HealthcheckQuery_zero) as [decoded [e |]]; [discriminate |].
    destruct (Frequency decoded <=? 0); [by intros [= _ <-] | discriminate].
  - rewrite exec_handleGetAllJobs. discriminate.
  - rewrite exec_handleGetJob. destruct (healthchecks w !! jobId); discriminate.
  - rewrite exec_handleDeleteJob, exec_StopHealthcheck.
    destruct (healthchecks w !! jobId) as [job |] eqn:Hj; [| discriminate].
    rewrite (quit_open w Hw jobId job Hj). discriminate.
  - rewrite exec_handlePutJob.
    destruct (Decode body HealthcheckQuery_zero) as [decoded [e |]]; [discriminate |].
    rewrite exec_UpdateHealthcheck.
    destruct (healthchecks w !! jobId) as [job |] eqn:Hj; [| discriminate].
    destruct (ticker_made w Hw jobId job Hj) as [tk ->]. cbn zeta.
    destruct (Frequency decoded <=? 0); [by intros [= _ <-] |].
    rewrite (quit_open w Hw jobId job Hj). discriminate.
Qed.

(** C5, as amended.  The stop handle is a channel that is closed to
    signal the stop; [close] panics on a channel that is already closed.
    When requests are served one at a time this never happens: in every
    state the server reaches, each stored job has an open stop channel
    that no other job has; no request panics in [close] (a handler panics
    only in [time.NewTicker], on a non-positive period); the state after
    the request is again such a state; and a delete after an update of
    the same id, and a second delete after that, are both answered 204. *)
Theorem stop_channel_closed_once (w : World) (r : Request) :
  reachable w ->
  consistent w
  /\ consistent (serve r w).1
  /\ (forall w' msg, exec (handle r) w = Panicked w' msg ->
        msg <> "close of closed channel" /\ msg = "non-positive interval for NewTicker")
  /\ (forall jobId body,
        (serve (DELETE_job jobId) (serve (PUT_job jobId body) w).1).2 =
          Some {| code := StatusNoContent; written := Nothing |}
        /\ (serve (DELETE_job jobId)
              (serve (DELETE_job jobId) (serve (PUT_job jobId body) w).1).1).2 =
             Some {| code := StatusNoContent; written := Nothing |}).
Proof.
  intros Hw. apply reachable_consistent in Hw.
  split; [exact Hw |]. split; [by apply serve_consistent |]. split.
  - intros w' msg Hp. apply handle_panics_only_in_NewTicker in Hp; [| exact Hw].
    by subst msg.
  - intros jobId body. split; apply serve_DELETE_responds; repeat apply serve_consistent; exact Hw.
Qed.

(** The goroutines a request starts. *)
Lemma serve_goroutines (w : World) (r : Request) :
  goroutines (serve r w).1 = goroutines w
  \/ exists id job,
       goroutines (serve r w).1 = goroutines w ++ [Spawned id]
       /\ healthchecks (serve r w).1 !! id = Some job
       /\ chans (serve r w).1 !! quit job = Some false
       /\ quit job = length (chans w).
Proof.
  rewrite serve_world. destruct r as [body | | jobId | jobId | jobId body]; cbn [handle].
  - rewrite exec_handleAddJob.
    destruct (Decode body HealthcheckQuery_zero) as [decoded [e |]]; [by left |].
    destruct (Frequency decoded <=? 0); [by left |]. right. cbn.
    eexists _, _. split; [reflexivity |]. split; [apply lookup_insert_eq |]. cbn.
    split; [| reflexivity]. by rewrite lookup_app_r, Nat.sub_diag.
  - by left.
  - rewrite exec_handleGetJob. destruct (healthchecks w !! jobId); by left.
  - rewrite exec_handleDeleteJob, exec_StopHealthcheck.
    destruct (healthchecks w !! jobId) as [job |]; [| by left].
    destruct (chans w !! quit job) as [[|] |]; by left.
  - rewrite exec_handlePutJob.
    destruct (Decode body HealthcheckQuery_zero) as [decoded [e |]]; [by left |].
    rewrite exec_UpdateHealthcheck.
    destruct (healthchecks w !! jobId) as [job |]; [| by left].
    destruct (tickers w !! ticker job) as [tk |]; [| by left]. cbn zeta.
    destruct (Frequency decoded <=? 0); [by left |].
    destruct (chans w !! quit job) as [[|] |]; try (by left). right. cbn.
    eexists _, _. split; [reflexivity |]. split; [apply lookup_insert_eq |]. cbn.
    split; [| reflexivity].
    by rewrite lookup_app_r, length_insert, Nat.sub_diag by (rewrite length_insert; lia).
Qed.

(** C9, as amended.  The registry takes no lock.  When requests are
    served one at a time, from any state the server reaches that way:
    after each request every stored job still has an open stop channel
    that no other job has; a request starts at most one goroutine, and
    then for an id whose entry holds the channel just made; and the two
    reading requests change nothing and answer with what the mapping
    holds, the job stored under the id (404 when there is none) and the
    jobs of all entries. *)
Theorem served_one_at_a_time (w : World) (r : Request) :
  reachable w ->
  consistent (serve r w).1
  /\ (goroutines (serve r w).1 = goroutines w
      \/ exists id job,
           goroutines (serve r w).1 = goroutines w ++ [Spawned id]
           /\ healthchecks (serve r w).1 !! id = Some job
           /\ chans (serve r w).1 !! quit job = Some false
           /\ quit job = length (chans w))
  /\ (forall jobId,
        serve (GET_job jobId) w =
        (w, Some match healthchecks w !! jobId with
                 | Some job => {| code := StatusOK; written := Job (healthcheck job) |}
                 | None => {| code := StatusNotFound; written := Nothing |}
                 end))
  /\ serve GET_jobs w =
     (w, Some {| code := StatusOK;
                 written := Jobs (healthcheck <$> (map_to_list (healthchecks w)).*2) |}).
Proof.
  intros Hw. apply reachable_consistent in Hw.
  split; [by apply serve_consistent |]. split; [apply serve_goroutines |]. split.
  - intros jobId. unfold serve. cbn [handle]. rewrite exec_handleGetJob.
    destruct (healthchecks w !! jobId); reflexivity.
  - reflexivity.
Qed.
End Registry.

(** ** Interleaving *)

(** A thread scheduled alone until it ends does what [exec] says. *)
Lemma interleave_alone {A : Type} (p : prog A) (w : World) :
  exists n,
    interleave (replicate n 0%nat) w [start p] =
    match exec p w with
    | Returned w' a => (w', [Finished a])
    | Panicked w' msg => (w', [Panicking msg])
    end.
Proof.
  revert w. induction p as [a | X s k IH]; intros w.
  - exists 0%nat. reflexivity.
  - cbn [exec]. destruct (run_stmt s w) as [[w' x] | msg] eqn:Hs.
    + destruct (IH x w') as [n Hn]. exists (S n). cbn. by rewrite Hs.
    + exists 1%nat. cbn. by rewrite Hs.
Qed.

(** The channel a thread is about to close. *)
Definition closing {A : Type} (t : thread A) : option nat :=
  match t with
  | Running s _ =>
      match s with
      | Close c => Some c
      | _ => None
      end
  | _ => None
  end.

(** * Concrete runs *)

(** Closed statements about concrete runs are settled by evaluation, one
    conjunct at a time. *)
Ltac by_computation :=
  repeat match goal with |- _ /\ _ => split end; vm_compute; reflexivity.

Section Runs.
#[local] Existing Instance Sample.packages.

Definition google_via_POST : payload :=
  {| d_Url := "https://google.com"; d_Method := "POST"; d_ExpectedStatus := 200;
     d_Frequency := "2m"; d_JqQuery := None |}.

Definition google_every_0 : payload :=
  {| d_Url := "https://google.com"; d_Method := "GET"; d_ExpectedStatus := 200;
     d_Frequency := "0"; d_JqQuery := None |}.

Definition google_soon : payload :=
  {| d_Url := "https://google.com"; d_Method := "GET"; d_ExpectedStatus := 200;
     d_Frequency := "soon"; d_JqQuery := None |}.

Definition status_page : payload :=
  {| d_Url := "https://status.sendgrid.com"; d_Method := "GET"; d_ExpectedStatus := 200;
     d_Frequency := "30s"; d_JqQuery := None |}.

(** The job [google] decodes to, under the id [id]. *)
Definition google_job (id : healthcheckId) (f : Duration) : HealthcheckQuery :=
  {| Id := id; Url := "https://google.com"; Method := "GET"; ExpectedStatus := 200;
     Frequency := f; JqQuery_ := {| Query := None; Expectation := "" |} |}.

Definition status_page_job (id : healthcheckId) : HealthcheckQuery :=
  {| Id := id; Url := "https://status.sendgrid.com"; Method := "GET"; ExpectedStatus := 200;
     Frequency := 30 * Second; JqQuery_ := {| Query := None; Expectation := "" |} |}.

(** The server after the first request of the README. *)
Definition one_job : World :=
  (serve (POST_jobs (Value Sample.google None)) NewHealthcheckServer).1.

Lemma one_job_reachable : reachable one_job.
Proof. apply reachable_serve, reachable_new. Qed.

Example one_job_state :
  one_job =
  {| healthchecks := {[ 1 := {| healthcheck := google_job 1 (2 * Minute);
                                quit := 0%nat; ticker := 0%nat |} ]};
     wg := 1; nextHealthcheckId := 1; chans := [false];
     tickers := [{| period := 2 * Minute; stopped := false; waiting := false |}];
     goroutines := [Spawned 1] |}.
Proof. vm_compute. reflexivity. Qed.

(** C1, counterexample.  7 is not a key of the mapping of a new server; the
    PUT of a job under 7 is answered 200 OK with the job, not 404. *)
Lemma Update_unknown_id_answers_OK :
  healthchecks NewHealthcheckServer !! 7 = None
  /\ serve (PUT_job 7 (Value Sample.google_5m None)) NewHealthcheckServer =
     (NewHealthcheckServer,
      Some {| code := StatusOK; written := Job (google_job 7 (5 * Minute)) |})
  /\ StatusOK <> StatusNotFound.
Proof. split; [vm_compute; reflexivity | split; [vm_compute; reflexivity | discriminate]]. Qed.

(** [Update_unknown_id] at id 7 on a new server. *)
Lemma Update_unknown_id_witness :
  healthchecks NewHealthcheckServer !! 7 = None
  /\ exec (UpdateHealthcheck 7 (google_job 0 (5 * Minute))) NewHealthcheckServer =
     Returned NewHealthcheckServer tt.
Proof.
  split; [reflexivity |].
  apply (Update_unknown_id NewHealthcheckServer 7). reflexivity.
Defined.

(** [Update_stores_decoded_Id] at the README's update of job 1: the answer
    carries id 1, the stored job and every later GET carry id 0. *)
Lemma Update_stores_decoded_Id_witness :
  reachable one_job
  /\ is_Some (healthchecks one_job !! 1)
  /\ Decode (Value Sample.google_5m None) HealthcheckQuery_zero = (google_job 0 (5 * Minute), None)
  /\ 0 < Frequency (google_job 0 (5 * Minute))
  /\ exists w',
       serve (PUT_job 1 (Value Sample.google_5m None)) one_job =
         (w', Some {| code := StatusOK; written := Job (google_job 1 (5 * Minute)) |})
       /\ serve (GET_job 1) w' =
            (w', Some {| code := StatusOK; written := Job (google_job 0 (5 * Minute)) |}).
Proof.
  assert (is_Some (healthchecks one_job !! 1)) as Hknown.
  { exists {| healthcheck := google_job 1 (2 * Minute); quit := 0%nat; ticker := 0%nat |}.
    vm_compute. reflexivity. }
  assert (Decode (Value Sample.google_5m None) HealthcheckQuery_zero =
          (google_job 0 (5 * Minute), None)) as Hd by (vm_compute; reflexivity).
  assert (0 < Frequency (google_job 0 (5 * Minute))) as Hf by (vm_compute; reflexivity).
  split; [exact one_job_reachable |]. split; [exact Hknown |].
  split; [exact Hd |]. split; [exact Hf |].
  destruct (Update_stores_decoded_Id one_job 1 (Value Sample.google_5m None)
              (google_job 0 (5 * Minute)) one_job_reachable Hknown Hd Hf)
    as (w' & Hput & Hget & _).
  exists w'. split; [exact Hput | exact Hget].
Defined.

Example Update_stores_Id_0 :
  serve (GET_job 1) (serve (PUT_job 1 (Value Sample.google_5m None)) one_job).1 =
  ((serve (PUT_job 1 (Value Sample.google_5m None)) one_job).1,
   Some {| code := StatusOK; written := Job (google_job 0 (5 * Minute)) |}).
Proof. vm_compute. reflexivity. Qed.

(** A job that asks for the whole body to be the string "operational". *)
Definition operational : HealthcheckQuery :=
  {| Id := 2; Url := "https://status.sendgrid.com"; Method := "GET"; ExpectedStatus := 200;
     Frequency := 30 * Second;
     JqQuery_ := {| Query := Some {| Run := fun data => [data; any_string "ignored"] |};
                    Expectation := "operational" |} |}.

Definition answer (status : Z) (body : Body) : http_Response :=
  {| StatusCode := status; Body_ := body |}.

(** [check_order] at the README's first job: a timeout, a 500 and a 200. *)
Lemma check_order_witness :
  Method (google_job 1 (2 * Minute)) = MethodGet
  /\ check (google_job 1 (2 * Minute)) (DoFails "timeout") =
     ({| Status := false |}, [PrintError "timeout"])
  /\ check (google_job 1 (2 * Minute)) (Responds (answer 500 (NotJSON ""))) =
     ({| Status := false |}, [UnexpectedStatus 500 200])
  /\ check (google_job 1 (2 * Minute)) (Responds (answer 200 (NotJSON ""))) =
     ({| Status := true |}, []).
Proof.
  destruct (check_order (google_job 1 (2 * Minute))) as [_ Hget].
  destruct (Hget eq_refl) as (_ & Hdo & Hstatus & Hpass).
  split; [reflexivity |]. split; [apply Hdo |].
  split; [apply (Hstatus (answer 500 (NotJSON ""))); discriminate |].
  apply (Hpass (answer 200 (NotJSON ""))); reflexivity.
Defined.

Example check_rejects_POST :
  check (set_Id {| Id := 0; Url := "https://google.com"; Method := "POST";
                   ExpectedStatus := 200; Frequency := 2 * Minute;
                   JqQuery_ := {| Query := None; Expectation := "" |} |} 1)
    (Responds (answer 200 (NotJSON ""))) =
  ({| Status := false |}, [MethodNotSupported "POST"]).
Proof. vm_compute. reflexivity. Qed.

(** [check_query] at a body that is the expected string. *)
Lemma check_query_witness :
  Method operational = MethodGet
  /\ StatusCode (answer 200 (JSON "" (any_string "operational"))) = ExpectedStatus operational
  /\ Status (check operational
               (Responds (answer 200 (JSON "" (any_string "operational"))))).1 = true.
Proof.
  split; [reflexivity |]. split; [reflexivity |].
  destruct (check_query operational {| Run := fun data => [data; any_string "ignored"] |}
              (answer 200 (JSON "" (any_string "operational"))) eq_refl eq_refl eq_refl)
    as (_ & _ & _ & Hfirst).
  destruct (Hfirst "" (any_string "operational") (any_string "operational")
              [any_string "ignored"] eq_refl eq_refl) as [Hiff _].
  apply Hiff. reflexivity.
Defined.

(** A first result that is not a string never equals the expectation. *)
Example check_query_number :
  check operational (Responds (answer 200 (JSON "" (any_int 1)))) =
  ({| Status := false |}, [PrintError "Expectation failed"]).
Proof. vm_compute. reflexivity. Qed.

(** C5, counterexample.  Two deletes of job 1 in flight together: each
    reads the entry before the other has closed its channel, both are about
    to close channel 0, the first close succeeds and the second panics. *)
Lemma two_deletes_interleaved :
  closing <$> (interleave [0; 1]%nat one_job
                 [start (handle (DELETE_job 1)); start (handle (DELETE_job 1))]).2
  = [Some 0%nat; Some 0%nat]
  /\ (interleave [0; 1; 0; 1; 0]%nat one_job
        [start (handle (DELETE_job 1)); start (handle (DELETE_job 1))]).2
     = [Finished {| code := StatusNoContent; written := Nothing |};
        Panicking "close of closed channel"].
Proof. by_computation. Qed.

(** [stop_channel_closed_once] at the server with one job. *)
Lemma stop_channel_closed_once_witness :
  reachable one_job
  /\ consistent (serve (DELETE_job 1) one_job).1
  /\ (serve (DELETE_job 1) (serve (PUT_job 1 (Value Sample.google_5m None)) one_job).1).2 =
     Some {| code := StatusNoContent; written := Nothing |}.
Proof.
  split; [exact one_job_reachable |].
  destruct (stop_channel_closed_once one_job (DELETE_job 1) one_job_reachable)
    as (_ & Hafter & _ & Hseq).
  split; [exact Hafter |]. apply (Hseq 1 (Value Sample.google_5m None)).
Defined.

(** The runner of job 1 once it has read its job. *)
Definition one_job_looping : World :=
  match runJob_step 0 case_quit one_job with
  | Some (w, _, _) => w
  | None => one_job
  end.

Lemma one_job_looping_reachable : reachable one_job_looping.
Proof.
  apply (reachable_runJob 0 case_quit one_job one_job_looping [] [] one_job_reachable).
  vm_compute. reflexivity.
Qed.


(** The README's deletion, with the runner of job 1 in its loop: the
    answer is 204, the runner takes the quit case and has ended. *)
Example Delete_stops_runner :
  exists w' w'',
    serve (DELETE_job 1) one_job_looping =
      (w', Some {| code := StatusNoContent; written := Nothing |})
    /\ runJob_step 0 case_quit w' = Some (w'', [], [])
    /\ goroutines w'' = [Exited]
    /\ tickers w'' = [{| period := 2 * Minute; stopped := true; waiting := false |}]
    /\ wg w'' = 0.
Proof.
  pose (w' := (serve (DELETE_job 1) one_job_looping).1).
  pose (w'' := match runJob_step 0 case_quit w' with Some (x, _, _) => x | None => w' end).
  exists w', w''. by_computation.
Qed.

(** Deleting twice, and deleting an id that never existed. *)
Example Delete_twice :
  (serve_all [DELETE_job 1; DELETE_job 1; DELETE_job 9] one_job).2 =
  [Some {| code := StatusNoContent; written := Nothing |};
   Some {| code := StatusNoContent; written := Nothing |};
   Some {| code := StatusNoContent; written := Nothing |}].
Proof. vm_compute. reflexivity. Qed.

(** [ids_never_reused] at two creations, a deletion and a third creation:
    the id 2, deleted, is not given to the third job. *)
Lemma ids_never_reused_witness :
  Forall add_or_delete
    [POST_jobs (Value Sample.google None); POST_jobs (Value status_page None);
     DELETE_job 2; POST_jobs (Value Sample.google_5m None)]
  /\ created_ids
       (serve_all [POST_jobs (Value Sample.google None); POST_jobs (Value status_page None);
                   DELETE_job 2; POST_jobs (Value Sample.google_5m None)]
          NewHealthcheckServer).2 = [1; 2; 3]
  /\ NoDup (created_ids
       (serve_all [POST_jobs (Value Sample.google None); POST_jobs (Value status_page None);
                   DELETE_job 2; POST_jobs (Value Sample.google_5m None)]
          NewHealthcheckServer).2).
Proof.
  assert (Forall add_or_delete
            [POST_jobs (Value Sample.google None); POST_jobs (Value status_page None);
             DELETE_job 2; POST_jobs (Value Sample.google_5m None)]) as Hrs
    by (repeat constructor).
  split; [exact Hrs |]. split; [vm_compute; reflexivity |].
  destruct (ids_never_reused _ Hrs ltac:(vm_compute; discriminate)) as (_ & _ & Hnd & _).
  exact Hnd.
Defined.

(** C8, counterexample.  A creation body whose method is POST is answered
    201 Created and its job is in the mapping.  A body whose frequency is
    "0" is not answered 400 either: [AddHealthcheck] is called, increments
    the counter and panics in [time.NewTicker], and no response is
    written. *)
Lemma non_GET_method_admitted :
  d_Method google_via_POST <> MethodGet
  /\ (exists w',
        serve (POST_jobs (Value google_via_POST None)) NewHealthcheckServer =
          (w', Some {| code := StatusCreated;
                       written := Job {| Id := 1; Url := "https://google.com";
                                         Method := "POST"; ExpectedStatus := 200;
                                         Frequency := 2 * Minute;
                                         JqQuery_ := {| Query := None; Expectation := "" |} |} |})
        /\ is_Some (healthchecks w' !! 1))
  /\ serve (POST_jobs (Value google_every_0 None)) NewHealthcheckServer =
     (add_panicked NewHealthcheckServer, None)
  /\ nextHealthcheckId (add_panicked NewHealthcheckServer) = 1.
Proof.
  split; [discriminate |]. split; [| split; vm_compute; reflexivity].
  exists (serve (POST_jobs (Value google_via_POST None)) NewHealthcheckServer).1.
  split; [vm_compute; reflexivity |].
  exists {| healthcheck := {| Id := 1; Url := "https://google.com"; Method := "POST";
                             ExpectedStatus := 200; Frequency := 2 * Minute;
                             JqQuery_ := {| Query := None; Expectation := "" |} |};
            quit := 0%nat; ticker := 0%nat |}.
  vm_compute. reflexivity.
Qed.

(** [undecodable_rejected] at a body whose frequency is not a duration. *)
Lemma undecodable_rejected_witness :
  undecodable (Value google_soon None)
  /\ serve (POST_jobs (Value google_soon None)) one_job = (one_job, Some bad_request)
  /\ serve (PUT_job 1 (Value google_soon None)) one_job = (one_job, Some bad_request).
Proof.
  assert (undecodable (Value google_soon None)) as Hu by (left; by eexists).
  split; [exact Hu |].
  destruct (undecodable_rejected one_job (Value google_soon None) 1) as [Hrej _].
  exact (Hrej Hu).
Defined.

Example Malformed_rejected :
  serve (POST_jobs (Malformed "unexpected end of JSON input")) one_job =
  (one_job, Some bad_request).
Proof. vm_compute. reflexivity. Qed.

(** C9, counterexample.  Two creations in flight together on a new server:
    both increment the counter before either reads it.  Both store under
    id 2 and both are answered 201 with id 2; the mapping holds one entry,
    the second job, and none under 1; two goroutines are started for id 2,
    and both end up looping on the same job, whose stop channel is open. *)
Lemma two_adds_interleaved :
  exists w w1 w2 job,
    interleave ([0; 1] ++ replicate 9 0 ++ replicate 9 1)%nat NewHealthcheckServer
      [start (handle (POST_jobs (Value Sample.google None)));
       start (handle (POST_jobs (Value status_page None)))]
    = (w, [Finished {| code := StatusCreated; written := Job (google_job 2 (2 * Minute)) |};
           Finished {| code := StatusCreated; written := Job (status_page_job 2) |}])
    /\ healthchecks w !! 1 = None
    /\ healthchecks w !! 2 = Some job
    /\ healthcheck job = status_page_job 2
    /\ goroutines w = [Spawned 2; Spawned 2]
    /\ runJob_step 0 case_quit w = Some (w1, [], [])
    /\ runJob_step 1 case_quit w1 = Some (w2, [], [])
    /\ goroutines w2 = [Looping job; Looping job]
    /\ chans w2 !! quit job = Some false.
Proof.
  pose (w := (interleave ([0; 1] ++ replicate 9 0 ++ replicate 9 1)%nat NewHealthcheckServer
                [start (handle (POST_jobs (Value Sample.google None)));
                 start (handle (POST_jobs (Value status_page None)))]).1).
  pose (w1 := match runJob_step 0 case_quit w with Some (x, _, _) => x | None => w end).
  pose (w2 := match runJob_step 1 case_quit w1 with Some (x, _, _) => x | None => w1 end).
  exists w, w1, w2, {| healthcheck := status_page_job 2; quit := 1%nat; ticker := 1%nat |}.
  by_computation.
Qed.

(** [served_one_at_a_time] at the server with one job. *)
Lemma served_one_at_a_time_witness :
  reachable one_job
  /\ consistent (serve (POST_jobs (Value status_page None)) one_job).1
  /\ serve (GET_job 1) one_job =
     (one_job, Some {| code := StatusOK; written := Job (google_job 1 (2 * Minute)) |})
  /\ serve (GET_job 2) one_job =
     (one_job, Some {| code := StatusNotFound; written := Nothing |}).
Proof.
  split; [exact one_job_reachable |].
  destruct (served_one_at_a_time one_job (POST_jobs (Value status_page None))
              one_job_reachable) as (Hafter & _ & Hget & _).
  split; [exact Hafter |]. split; [apply (Hget 1) | apply (Hget 2)].
Defined.

(** The same two creations served one after the other. *)
Example two_adds_in_turn :
  (serve_all [POST_jobs (Value Sample.google None); POST_jobs (Value status_page None)]
     NewHealthcheckServer).2 =
  [Some {| code := StatusCreated; written := Job (google_job 1 (2 * Minute)) |};
   Some {| code := StatusCreated; written := Job (status_page_job 2) |}].
Proof. vm_compute. reflexivity. Qed.

(** Requests served one at a time do not bound the runners: a goroutine
    reads its job when it first runs, not when it is started.  After a
    creation and an update the two goroutines started for id 1 both read
    the updated job. *)
Example late_runners_share_a_job :
  exists w w1 w2 job,
    serve_all [POST_jobs (Value Sample.google None); PUT_job 1 (Value Sample.google_5m None)]
      NewHealthcheckServer
    = (w, [Some {| code := StatusCreated; written := Job (google_job 1 (2 * Minute)) |};
           Some {| code := StatusOK; written := Job (google_job 1 (5 * Minute)) |}])
    /\ healthchecks w !! 1 = Some job
    /\ runJob_step 0 case_quit w = Some (w1, [], [])
    /\ runJob_step 1 case_quit w1 = Some (w2, [], [])
    /\ goroutines w2 = [Looping job; Looping job].
Proof.
  pose (w := (serve_all [POST_jobs (Value Sample.google None);
                         PUT_job 1 (Value Sample.google_5m None)] NewHealthcheckServer).1).
  pose (w1 := match runJob_step 0 case_quit w with Some (x, _, _) => x | None => w end).
  pose (w2 := match runJob_step 1 case_quit w1 with Some (x, _, _) => x | None => w1 end).
  exists w, w1, w2,
    {| healthcheck := google_job 0 (5 * Minute); quit := 1%nat; ticker := 1%nat |}.
  by_computation.
Qed.

(** A goroutine that first runs after its job was deleted finds no entry
    and panics. *)
Example late_runner_after_delete :
  exists w w1,
    serve_all [POST_jobs (Value Sample.google None); DELETE_job 1] NewHealthcheckServer
    = (w, [Some {| code := StatusCreated; written := Job (google_job 1 (2 * Minute)) |};
           Some {| code := StatusNoContent; written := Nothing |}])
    /\ runJob_step 0 case_quit w = Some (w1, [], [])
    /\ goroutines w1 = [Crashed "invalid memory address or nil pointer dereference"].
Proof.
  pose (w := (serve_all [POST_jobs (Value Sample.google None); DELETE_job 1]
                NewHealthcheckServer).1).
  pose (w1 := match runJob_step 0 case_quit w with Some (x, _, _) => x | None => w end).
  exists w, w1. by_computation.
Qed.

(** [Add_id_from_counter] at a second creation: the counter is 1, the id 2. *)
Lemma Add_id_from_counter_witness :
  Decode (Value status_page None) HealthcheckQuery_zero = (status_page_job 0, None)
  /\ 0 < Frequency (status_page_job 0)
  /\ exists w',
       serve (POST_jobs (Value status_page None)) one_job =
         (w', Some {| code := StatusCreated; written := Job (status_page_job 2) |})
       /\ nextHealthcheckId w' = 2.
Proof.
  assert (Decode (Value status_page None) HealthcheckQuery_zero = (status_page_job 0, None))
    as Hd by (vm_compute; reflexivity).
  split; [exact Hd |]. split; [reflexivity |].
  destruct (Add_id_from_counter one_job (Value status_page None) (status_page_job 0)
              Hd eq_refl) as ((w' & Hresp & Hnext & _) & _).
  exists w'. split; [exact Hresp | exact Hnext].
Defined.

(** One tick and one check of job 1: the probe is answered 200 and the
    runner logs UP; a second round of the select finds no tick waiting. *)
Example one_check :
  exists w1 w2,
    runJob_step 0 (case_ticker (Responds (answer 200 (NotJSON ""))))
      (tick 0 one_job_looping)
    = Some (w1, [], [{| log_url := "https://google.com"; log_method := "GET";
                        log_expected_status := 200; log_status := "UP" |}])
    /\ runJob_step 0 (case_ticker (Responds (answer 200 (NotJSON "")))) w1 = None
    /\ runJob_step 0 (case_ticker (Responds (answer 500 (NotJSON "")))) (tick 0 w1)
       = Some (w2, [UnexpectedStatus 500 200],
               [{| log_url := "https://google.com"; log_method := "GET";
                   log_expected_status := 200; log_status := "DOWN" |}]).
Proof.
  pose (w1 := match runJob_step 0 (case_ticker (Responds (answer 200 (NotJSON ""))))
                      (tick 0 one_job_looping) with
              | Some (x, _, _) => x
              | None => one_job_looping
              end).
  pose (w2 := match runJob_step 0 (case_ticker (Responds (answer 500 (NotJSON ""))))
                      (tick 0 w1) with
              | Some (x, _, _) => x
              | None => w1
              end).
  exists w1, w2. by_computation.
Qed.
End Runs.


(** * Further properties of the code *)

(** ** The verifier: when a check passes *)

(** A check reports UP exactly when the method is GET, a response arrived
    with the expected status code and, if a query is configured, the body
    decoded and the first result of the query is the string [Expectation].
    Nothing else passes: no failure of the network, of the body or of the
    query is ever reported as UP. *)
Theorem check_up_iff (h : HealthcheckQuery) (net : Probe) :
  Status (check h net).1 = true <->
  Method h = MethodGet
  /\ exists resp,
       net = Responds resp
       /\ StatusCode resp = ExpectedStatus h
       /\ (Query (JqQuery_ h) = None
           \/ exists q raw data rest,
                Query (JqQuery_ h) = Some q
                /\ Body_ resp = JSON raw data
                /\ Run q data = any_string (Expectation (JqQuery_ h)) :: rest).
Proof.
  unfold check.
  destruct (negb (String.eqb (Method h) MethodGet)) eqn:Hm.
  { cbn. split; [discriminate |]. intros [Hg _].
    apply negb_eqb_MethodGet in Hg. congruence. }
  apply negb_eqb_MethodGet in Hm.
  destruct net as [err | err | resp]; cbn.
  1, 2: split; [discriminate | intros (_ & resp & [=] & _)].
  destruct (StatusCode resp =? ExpectedStatus h) eqn:Hs; cbn.
  2: { split; [discriminate |]. intros (_ & resp' & [= <-] & Hs' & _).
       apply Z.eqb_neq in Hs. contradiction. }
  apply Z.eqb_eq in Hs.
  destruct (Query (JqQuery_ h)) as [q |] eqn:Hq.
  2: { cbn. split; [| reflexivity]. intros _. split; [exact Hm |].
       exists resp. split; [reflexivity |]. split; [exact Hs | by left]. }
  unfold checkJSON. destruct (Body_ resp) as [err | raw | raw data] eqn:Hb; cbn.
  1, 2: split; [discriminate |];
    intros (_ & resp' & [= <-] & _ & [[=] | (q' & raw' & data' & rest & _ & Hb' & _)]);
    congruence.
  destruct (Run q data) as [| v rest] eqn:Hr; cbn.
  { split; [discriminate |].
    intros (_ & resp' & [= <-] & _ & [[=] | (q' & raw' & data' & rest & [= <-] & Hb' & Hr')]).
    rewrite Hb in Hb'. injection Hb' as _ <-. congruence. }
  destruct (any_neq_string v (Expectation (JqQuery_ h))) eqn:Hv; cbn.
  - split; [discriminate |].
    intros (_ & resp' & [= <-] & _ & [[=] | (q' & raw' & data' & rest' & [= <-] & Hb' & Hr')]).
    rewrite Hb in Hb'. injection Hb' as _ <-. rewrite Hr in Hr'. injection Hr' as -> _.
    assert (any_neq_string (any_string (Expectation (JqQuery_ h)))
              (Expectation (JqQuery_ h)) = false) as Hv'
      by (by apply any_neq_string_false).
    congruence.
  - apply any_neq_string_false in Hv. subst v.
    split; [| reflexivity]. intros _. split; [exact Hm |].
    exists resp. split; [reflexivity |]. split; [exact Hs |]. right.
    by exists q, raw, data, rest.
Qed.

(** A check prints nothing exactly when it reports UP: every DOWN comes
    with at least one printed line that names its reason, and a passing
    check is silent. *)
Theorem check_silent_iff_up (h : HealthcheckQuery) (net : Probe) :
  (check h net).2 = [] <-> Status (check h net).1 = true.
Proof.
  unfold check.
  destruct (negb (String.eqb (Method h) MethodGet)); [by split |].
  destruct net as [err | err | resp]; [by split | by split |].
  destruct (negb (StatusCode resp =? ExpectedStatus h)); [by split |].
  destruct (Query (JqQuery_ h)) as [q |]; [| by split].
  unfold checkJSON. destruct (Body_ resp) as [err | raw | raw data]; [by split | by split |].
  destruct (Run q data) as [| v rest]; cbn; [by split |].
  destruct (any_neq_string v (Expectation (JqQuery_ h))); by split.
Qed.

(** ** The runner *)

(** One round of the select on the ticker.  A runner in its loop runs a
    check only when a tick waits on its ticker; it then hands exactly one
    record to the log, with the url, method and expected status of the job
    it holds and UP or DOWN as [check] decided, and takes the tick: without
    a new tick the ticker case is not ready again.  The step changes
    nothing else: not the mapping, the counter, the channels, the wait
    group or any goroutine. *)
Theorem runJob_one_record_per_tick (w : World) (g : nat) (job : healthcheckJob)
    (tk : Ticker) (net : Probe) :
  goroutines w !! g = Some (Looping job) ->
  tickers w !! ticker job = Some tk ->
  (waiting tk = false -> runJob_step g (case_ticker net) w = None)
  /\ (waiting tk = true ->
        exists w',
          runJob_step g (case_ticker net) w =
            Some (w', (check (healthcheck job) net).2,
                  [{| log_url := Url (healthcheck job);
                      log_method := Method (healthcheck job);
                      log_expected_status := ExpectedStatus (healthcheck job);
                      log_status := if Status (check (healthcheck job) net).1
                                    then "UP" else "DOWN" |}])
          /\ healthchecks w' = healthchecks w
          /\ nextHealthcheckId w' = nextHealthcheckId w
          /\ chans w' = chans w
          /\ wg w' = wg w
          /\ goroutines w' = goroutines w
          /\ forall net', runJob_step g (case_ticker net') w' = None).
Proof.
  intros Hg Ht. unfold runJob_step at 1 2. rewrite Hg, Ht.
  split; [by intros -> |]. intros ->.
  destruct (check (healthcheck job) net) as [resp out] eqn:Hc. cbn [fst snd].
  eexists. split; [reflexivity |]. repeat split.
  intros net'. unfold runJob_step. cbn. rewrite Hg.
  rewrite list_lookup_insert_eq by (by eapply lookup_lt_Some). reflexivity.
Qed.

(** A goroutine that has not ended: started, or in its loop. *)
Definition live (r : runner) : bool :=
  match r with
  | Spawned _ | Looping _ => true
  | Exited | Crashed _ => false
  end.

Definition live_count (l : list runner) : Z :=
  Z.of_nat (length (List.filter live l)).

Lemma live_count_app (l : list runner) (r : runner) :
  live_count (l ++ [r]) = live_count l + (if live r then 1 else 0).
Proof.
  unfold live_count. rewrite List.filter_app, length_app. cbn.
  destruct (live r); cbn; lia.
Qed.

Lemma live_count_insert (l : list runner) (g : nat) (r r' : runner) :
  l !! g = Some r ->
  live_count (<[g := r']> l) =
  live_count l - (if live r then 1 else 0) + (if live r' then 1 else 0).
Proof.
  unfold live_count. revert g. induction l as [| x l IH]; intros g; [discriminate |].
  destruct g as [| g].
  - intros [= ->]. cbn. destruct (live r), (live r'); cbn; lia.
  - intros Hg. specialize (IH g Hg).
    change (<[S g := r']> (x :: l)) with (x :: <[g := r']> l).
    cbn [List.filter]. destruct (live x); cbn [length];
      destruct (live r), (live r'); lia.
Qed.

(** The periods of the tickers made so far, which no step changes. *)
Definition same_periods (l l' : list Ticker) : Prop :=
  forall t tk, l !! t = Some tk -> exists tk', l' !! t = Some tk' /\ period tk' = period tk.

Lemma same_periods_refl (l : list Ticker) : same_periods l l.
Proof. intros t tk Ht. by exists tk. Qed.

Lemma same_periods_insert (l : list Ticker) (t : nat) (tk tk' : Ticker) :
  l !! t = Some tk -> period tk' = period tk -> same_periods l (<[t := tk']> l).
Proof.
  intros Ht Hp t0 tk0 Ht0. destruct (decide (t = t0)) as [<- | Hne].
  - exists tk'. rewrite list_lookup_insert_eq by (by eapply lookup_lt_Some).
    split; [reflexivity | congruence].
  - exists tk0. by rewrite list_lookup_insert_ne.
Qed.

Lemma same_periods_app (l l' : list Ticker) (tk : Ticker) :
  same_periods l l' -> same_periods l (l' ++ [tk]).
Proof.
  intros Hl t tk0 Ht. destruct (Hl t tk0 Ht) as (tk' & Ht' & Hp).
  exists tk'. split; [| exact Hp]. rewrite lookup_app_l; [exact Ht' |].
  by eapply lookup_lt_Some.
Qed.

(** Every stored job has a positive frequency and a ticker of that period. *)
Definition timed (w : World) : Prop :=
  forall id job, healthchecks w !! id = Some job ->
    0 < Frequency (healthcheck job)
    /\ exists tk, tickers w !! ticker job = Some tk
                  /\ period tk = Frequency (healthcheck job).

Lemma timed_same (w w' : World) :
  healthchecks w' = healthchecks w -> same_periods (tickers w) (tickers w') ->
  timed w -> timed w'.
Proof.
  intros Hm Hp Hw id job. rewrite Hm. intros Hj.
  destruct (Hw id job Hj) as (Hf & tk & Ht & Hper). split; [exact Hf |].
  destruct (Hp _ _ Ht) as (tk' & Ht' & Hper'). exists tk'. split; [exact Ht' | congruence].
Qed.

Lemma timed_stored (w : World) (l : list Ticker)
    (id : healthcheckId) (job : healthcheckJob) (w' : World) :
  timed w ->
  healthchecks w' = <[id := job]> (healthchecks w) ->
  tickers w' = l ++ [{| period := Frequency (healthcheck job);
                        stopped := false; waiting := false |}] ->
  same_periods (tickers w) l ->
  ticker job = length l ->
  0 < Frequency (healthcheck job) ->
  timed w'.
Proof.
  intros Hw Hm Ht Hp Hk Hf id' job'. rewrite Hm, Ht, lookup_insert.
  case_decide as Hid.
  - intros [= <-]. split; [exact Hf |].
    exists {| period := Frequency (healthcheck job); stopped := false; waiting := false |}.
    split; [| reflexivity]. by rewrite Hk, lookup_app_r, Nat.sub_diag.
  - intros Hj. destruct (Hw id' job' Hj) as (Hf' & tk & Htk & Hper).
    split; [exact Hf' |]. destruct (Hp _ _ Htk) as (tk' & Htk' & Hper').
    exists tk'. split; [| congruence].
    rewrite lookup_app_l; [exact Htk' | by eapply lookup_lt_Some].
Qed.

Section Invariants.
Context `{Packages}.

Lemma serve_wg_live (r : Request) (w : World) :
  wg (serve r w).1 - live_count (goroutines (serve r w).1) =
  wg w - live_count (goroutines w).
Proof.
  rewrite serve_world. destruct r as [body | | jobId | jobId | jobId body]; cbn [handle].
  - rewrite exec_handleAddJob.
    destruct (Decode body HealthcheckQuery_zero) as [decoded [e |]]; [reflexivity |].
    destruct (Frequency decoded <=? 0); [reflexivity |]. cbn.
    rewrite live_count_app. cbn. lia.
  - reflexivity.
  - rewrite exec_handleGetJob. destruct (healthchecks w !! jobId); reflexivity.
  - rewrite exec_handleDeleteJob, exec_StopHealthcheck.
    destruct (healthchecks w !! jobId) as [job |]; [| reflexivity].
    destruct (chans w !! quit job) as [[|] |]; reflexivity.
  - rewrite exec_handlePutJob.
    destruct (Decode body HealthcheckQuery_zero) as [decoded [e |]]; [reflexivity |].
    rewrite exec_UpdateHealthcheck.
    destruct (healthchecks w !! jobId) as [job |]; [| reflexivity].
    destruct (tickers w !! ticker job) as [tk |]; [| reflexivity]. cbn zeta.
    destruct (Frequency decoded <=? 0); [reflexivity |].
    destruct (chans w !! quit job) as [[|] |]; try reflexivity. cbn.
    rewrite live_count_app. cbn. lia.
Qed.

Lemma runJob_step_wg_live (g : nat) (c : select_case) (w w' : World)
    (out : list printed) (log : list logged) :
  runJob_step g c w = Some (w', out, log) ->
  wg w' - live_count (goroutines w') = wg w - live_count (goroutines w).
Proof.
  unfold runJob_step.
  destruct (goroutines w !! g) as [[id | job | | msg] |] eqn:Hg; try discriminate.
  - destruct (healthchecks w !! id); intros [= <- _ _]; cbn;
      rewrite (live_count_insert _ _ _ _ Hg); cbn; lia.
  - destruct c as [net |].
    + destruct (tickers w !! ticker job) as [tk |]; [| discriminate].
      destruct (waiting tk); [| discriminate].
      destruct (check (healthcheck job) net). by intros [= <- _ _].
    + destruct (chans w !! quit job) as [[|] |]; try discriminate.
      destruct (tickers w !! ticker job) as [tk |]; [| discriminate].
      intros [= <- _ _]. cbn. rewrite (live_count_insert _ _ _ _ Hg). cbn. lia.
Qed.

Lemma tick_wg_live (t : Ticker_ref) (w : World) :
  wg (tick t w) = wg w /\ goroutines (tick t w) = goroutines w.
Proof.
  unfold tick. destruct (tickers w !! t) as [tk |]; [| done].
  destruct (stopped tk); done.
Qed.

(** The wait group counts the goroutines that have not ended.  In every
    state the server reaches when requests are served one at a time,
    [h.wg] equals the number of [runJob] goroutines started and not yet
    returned or panicked: [AddHealthcheck] and [UpdateHealthcheck] add one
    for each goroutine they start and for no other, also when they panic
    part of the way, and each goroutine takes one off when it ends.  So the
    counter is never negative, and the [h.wg.Wait()] deferred in [Run]
    waits for exactly the runners still alive. *)
Theorem wg_counts_live_goroutines (w : World) :
  reachable w -> wg w = live_count (goroutines w) /\ 0 <= wg w.
Proof.
  intros Hw.
  assert (wg w = live_count (goroutines w)) as Heq.
  { induction Hw as [| r w _ IH | g c w w' out log _ IH Hstep | t w _ IH].
    - reflexivity.
    - pose proof (serve_wg_live r w). lia.
    - pose proof (runJob_step_wg_live g c w w' out log Hstep). lia.
    - destruct (tick_wg_live t w) as [-> ->]. exact IH. }
  split; [exact Heq |]. rewrite Heq. unfold live_count. lia.
Qed.

Lemma serve_timed (r : Request) (w : World) : timed w -> timed (serve r w).1.
Proof.
  intros Hw. rewrite serve_world.
  destruct r as [body | | jobId | jobId | jobId body]; cbn [handle].
  - rewrite exec_handleAddJob.
    destruct (Decode body HealthcheckQuery_zero) as [decoded [e |]]; [exact Hw |].
    destruct (Z.leb_spec (Frequency decoded) 0) as [Hle | Hlt]; cbn.
    + apply (timed_same w); [reflexivity | apply same_periods_refl | exact Hw].
    + eapply (timed_stored w (tickers w)); try reflexivity; try exact Hw.
      * apply same_periods_refl.
      * exact Hlt.
  - exact Hw.
  - rewrite exec_handleGetJob. destruct (healthchecks w !! jobId); exact Hw.
  - rewrite exec_handleDeleteJob, exec_StopHealthcheck.
    destruct (healthchecks w !! jobId) as [job |] eqn:Hj; [| exact Hw].
    destruct (chans w !! quit job) as [[|] |]; try exact Hw. cbn.
    intros id' job'. cbn. rewrite lookup_delete. case_decide; [discriminate | apply Hw].
  - rewrite exec_handlePutJob.
    destruct (Decode body HealthcheckQuery_zero) as [decoded [e |]]; [exact Hw |].
    rewrite exec_UpdateHealthcheck.
    destruct (healthchecks w !! jobId) as [job |] eqn:Hj; [| exact Hw].
    destruct (tickers w !! ticker job) as [tk |] eqn:Ht; [| exact Hw]. cbn zeta.
    assert (same_periods (tickers w) (<[ticker job := stop_ticker tk]> (tickers w))) as Hp
      by (by apply (same_periods_insert _ _ tk)).
    destruct (Z.leb_spec (Frequency decoded) 0) as [Hle | Hlt].
    { cbn. by apply (timed_same w). }
    destruct (chans w !! quit job) as [[|] |]; cbn.
    + apply (timed_same w); [reflexivity | by apply same_periods_app | exact Hw].
    + eapply (timed_stored w (<[ticker job := stop_ticker tk]> (tickers w)));
        try reflexivity; try exact Hw; try exact Hp.
      * cbn. by rewrite length_insert.
      * exact Hlt.
    + apply (timed_same w); [reflexivity | by apply same_periods_app | exact Hw].
Qed.

Lemma runJob_step_timed (g : nat) (c : select_case) (w w' : World)
    (out : list printed) (log : list logged) :
  runJob_step g c w = Some (w', out, log) -> timed w -> timed w'.
Proof.
  unfold runJob_step. intros Hstep Hw.
  destruct (goroutines w !! g) as [[id | job | | msg] |]; try discriminate.
  - destruct (healthchecks w !! id); injection Hstep as <- _ _;
      (apply (timed_same w); [reflexivity | apply same_periods_refl | exact Hw]).
  - destruct c as [net |].
    + destruct (tickers w !! ticker job) as [tk |] eqn:Ht; [| discriminate].
      destruct (waiting tk); [| discriminate].
      destruct (check (healthcheck job) net) as [resp out'].
      injection Hstep as <- _ _.
      apply (timed_same w); [reflexivity | | exact Hw].
      by apply (same_periods_insert _ _ tk).
    + destruct (chans w !! quit job) as [[|] |]; try discriminate.
      destruct (tickers w !! ticker job) as [tk |] eqn:Ht; [| discriminate].
      injection Hstep as <- _ _.
      apply (timed_same w); [reflexivity | | exact Hw].
      by apply (same_periods_insert _ _ tk).
Qed.

Lemma tick_timed (t : Ticker_ref) (w : World) : timed w -> timed (tick t w).
Proof.
  intros Hw. unfold tick. destruct (tickers w !! t) as [tk |] eqn:Ht; [| exact Hw].
  destruct (stopped tk); [exact Hw |].
  apply (timed_same w); [reflexivity | | exact Hw].
  by apply (same_periods_insert _ _ tk).
Qed.

(** Every job in the mapping has a strictly positive frequency, and the
    ticker it points to was made with exactly that period.  This holds in
    every state the server reaches when requests are served one at a time:
    a creation or update with a non-positive frequency panics in
    [time.NewTicker] before anything is stored. *)
Theorem stored_frequency_positive (w : World) (id : healthcheckId) (job : healthcheckJob) :
  reachable w ->
  healthchecks w !! id = Some job ->
  0 < Frequency (healthcheck job)
  /\ exists tk, tickers w !! ticker job = Some tk
                /\ period tk = Frequency (healthcheck job).
Proof.
  intros Hw. revert id job. change (timed w).
  induction Hw as [| r w _ IH | g c w w' out log _ IH Hstep | t w _ IH].
  - intros id job. cbn. rewrite lookup_empty. discriminate.
  - by apply serve_timed.
  - by eapply runJob_step_timed.
  - by apply tick_timed.
Qed.

(** ** Updates *)

(** An update of a known job with a non-positive frequency is not
    answered: [UpdateHealthcheck] stops the ticker of the stored job and
    then panics in [time.NewTicker].  The mapping, the channels and the
    goroutines are as before, so the job is still listed with its old
    definition and its stop channel is still open, but its ticker is
    stopped: no tick reaches its runner any more. *)
Theorem Update_nonpositive_stops_ticker (w : World) (jobId : healthcheckId)
    (body : RequestBody) (decoded : HealthcheckQuery) (job : healthcheckJob) :
  reachable w ->
  healthchecks w !! jobId = Some job ->
  Decode body HealthcheckQuery_zero = (decoded, None) ->
  Frequency decoded <= 0 ->
  exists w' tk,
    serve (PUT_job jobId body) w = (w', None)
    /\ healthchecks w' = healthchecks w
    /\ chans w' = chans w
    /\ goroutines w' = goroutines w
    /\ wg w' = wg w
    /\ nextHealthcheckId w' = nextHealthcheckId w
    /\ tickers w' !! ticker job = Some tk
    /\ stopped tk = true
    /\ tick (ticker job) w' = w'.
Proof.
  intros Hw Hj Hd Hf. apply reachable_consistent in Hw.
  destruct (ticker_made w Hw jobId job Hj) as [tk Ht].
  assert (ticker job < length (tickers w))%nat as Hlt by (by eapply lookup_lt_Some).
  exists (with_tickers (<[ticker job := stop_ticker tk]> (tickers w)) w), (stop_ticker tk).
  split.
  { unfold serve. cbn [handle]. rewrite exec_handlePutJob, Hd, exec_UpdateHealthcheck, Hj, Ht.
    cbn zeta. destruct (Z.leb_spec (Frequency decoded) 0) as [| Hgt]; [reflexivity | lia]. }
  repeat split; try reflexivity.
  - cbn. by apply list_lookup_insert_eq.
  - unfold tick. cbn. by rewrite list_lookup_insert_eq.
Qed.

(** What a successful update hands over.  For a known job and a body that
    decodes with a positive frequency, served in a state reached one
    request at a time: the stop channel of the old entry is closed and its
    ticker stopped; the new entry holds the decoded job, a new open channel
    and a new running ticker of the new period, neither shared with the old
    entry; one goroutine is started, and its first step reads the new entry;
    a runner looping on the old entry can take its quit case and ends; no
    other entry and not the counter change. *)
Theorem Update_hands_over (w : World) (jobId : healthcheckId) (body : RequestBody)
    (decoded : HealthcheckQuery) (job : healthcheckJob) :
  reachable w ->
  healthchecks w !! jobId = Some job ->
  Decode body HealthcheckQuery_zero = (decoded, None) ->
  0 < Frequency decoded ->
  exists w' job' old,
    (serve (PUT_job jobId body) w).1 = w'
    /\ healthchecks w' !! jobId = Some job'
    /\ healthcheck job' = decoded
    /\ chans w' !! quit job = Some true
    /\ tickers w' !! ticker job = Some old /\ stopped old = true
    /\ quit job' <> quit job /\ ticker job' <> ticker job
    /\ chans w' !! quit job' = Some false
    /\ tickers w' !! ticker job' =
         Some {| period := Frequency decoded; stopped := false; waiting := false |}
    /\ goroutines w' = goroutines w ++ [Spawned jobId]
    /\ (forall c, exists w'',
          runJob_step (length (goroutines w)) c w' = Some (w'', [], [])
          /\ goroutines w'' !! length (goroutines w) = Some (Looping job'))
    /\ (forall g, goroutines w !! g = Some (Looping job) ->
          exists w'', runJob_step g case_quit w' = Some (w'', [], [])
                      /\ goroutines w'' !! g = Some Exited)
    /\ (forall j, j <> jobId -> healthchecks w' !! j = healthchecks w !! j)
    /\ nextHealthcheckId w' = nextHealthcheckId w.
Proof.
  intros Hw Hj Hd Hf. apply reachable_consistent in Hw.
  destruct (ticker_made w Hw jobId job Hj) as [tk Ht].
  pose proof (quit_open w Hw jobId job Hj) as Hc.
  assert (ticker job < length (tickers w))%nat as Hlt by (by eapply lookup_lt_Some).
  assert (quit job < length (chans w))%nat as Hlc by (by eapply lookup_lt_Some).
  exists (updated jobId decoded job tk w),
    {| healthcheck := decoded; quit := length (chans w); ticker := length (tickers w) |},
    (stop_ticker tk).
  assert (healthchecks (updated jobId decoded job tk w) !! jobId =
          Some {| healthcheck := decoded; quit := length (chans w);
                  ticker := length (tickers w) |}) as Hl
    by (cbn; apply lookup_insert_eq).
  split.
  { rewrite serve_world. cbn [handle]. rewrite exec_handlePutJob, Hd, exec_UpdateHealthcheck, Hj, Ht.
    cbn zeta. destruct (Z.leb_spec (Frequency decoded) 0) as [Hle |]; [lia |].
    by rewrite Hc. }
  split; [exact Hl |]. split; [reflexivity |].
  assert (chans (updated jobId decoded job tk w) !! quit job = Some true) as Hclosed.
  { cbn. rewrite lookup_app_l by (by rewrite length_insert).
    by apply list_lookup_insert_eq. }
  assert (tickers (updated jobId decoded job tk w) !! ticker job = Some (stop_ticker tk))
    as Hstopped.
  { cbn. rewrite lookup_app_l by (by rewrite length_insert).
    by apply list_lookup_insert_eq. }
  split; [exact Hclosed |]. split; [exact Hstopped |]. split; [reflexivity |].
  split; [cbn; lia |]. split; [cbn; lia |].
  split. { cbn. by rewrite lookup_app_r, length_insert, Nat.sub_diag by (rewrite length_insert; lia). }
  split. { cbn. by rewrite lookup_app_r, length_insert, Nat.sub_diag by (rewrite length_insert; lia). }
  split; [reflexivity |].
  split.
  { intros c. unfold runJob_step.
    assert (goroutines (updated jobId decoded job tk w) !! length (goroutines w)
            = Some (Spawned jobId)) as ->
      by (cbn; by rewrite lookup_app_r, Nat.sub_diag).
    rewrite Hl. eexists. split; [reflexivity |]. cbn.
    apply list_lookup_insert_eq. rewrite length_app. cbn. lia. }
  split.
  { intros g Hg. unfold runJob_step.
    assert (goroutines (updated jobId decoded job tk w) !! g = Some (Looping job)) as ->.
    { cbn. rewrite lookup_app_l; [exact Hg | by eapply lookup_lt_Some]. }
    rewrite Hclosed, Hstopped. eexists. split; [reflexivity |]. cbn.
    apply list_lookup_insert_eq. rewrite length_app.
    apply lookup_lt_Some in Hg. lia. }
  split; [| reflexivity].
  intros j Hne. cbn. by rewrite lookup_insert_ne.
Qed.

(** ** The counter and the keys *)

Lemma serve_nextHealthcheckId (r : Request) (w : World) :
  nextHealthcheckId (serve r w).1 =
  match r with
  | POST_jobs body =>
      match (Decode body HealthcheckQuery_zero).2 with
      | None => wrap_int (nextHealthcheckId w + 1)
      | Some _ => nextHealthcheckId w
      end
  | _ => nextHealthcheckId w
  end.
Proof.
  rewrite serve_world. destruct r as [body | | jobId | jobId | jobId body]; cbn [handle].
  - rewrite exec_handleAddJob.
    destruct (Decode body HealthcheckQuery_zero) as [decoded [e |]]; [reflexivity |].
    cbn [snd]. destruct (Frequency decoded <=? 0); reflexivity.
  - reflexivity.
  - rewrite exec_handleGetJob. destruct (healthchecks w !! jobId); reflexivity.
  - rewrite exec_handleDeleteJob, exec_StopHealthcheck.
    destruct (healthchecks w !! jobId) as [job |]; [| reflexivity].
    destruct (chans w !! quit job) as [[|] |]; reflexivity.
  - rewrite exec_handlePutJob.
    destruct (Decode body HealthcheckQuery_zero) as [decoded [e |]]; [reflexivity |].
    rewrite exec_UpdateHealthcheck.
    destruct (healthchecks w !! jobId) as [job |]; [| reflexivity].
    destruct (tickers w !! ticker job) as [tk |]; [| reflexivity]. cbn zeta.
    destruct (Frequency decoded <=? 0); [reflexivity |].
    destruct (chans w !! quit job) as [[|] |]; reflexivity.
Qed.

(** The id counter moves only on a creation request whose body decodes,
    and then by one, whether the job is created or [AddHealthcheck] panics
    on a non-positive frequency; listing, fetching, updating, deleting and
    a creation that is answered 400 leave it as it is.  So a creation that
    panics uses up an id: below the maximum of [int], the creation that
    follows it announces the counter plus two. *)
Theorem counter_moves_only_on_creation (w : World) (r : Request) :
  nextHealthcheckId (serve r w).1 =
    match r with
    | POST_jobs body =>
        match (Decode body HealthcheckQuery_zero).2 with
        | None => wrap_int (nextHealthcheckId w + 1)
        | Some _ => nextHealthcheckId w
        end
    | _ => nextHealthcheckId w
    end
  /\ (forall body body' failed decoded,
        r = POST_jobs body ->
        Decode body HealthcheckQuery_zero = (failed, None) ->
        Frequency failed <= 0 ->
        Decode body' HealthcheckQuery_zero = (decoded, None) ->
        0 < Frequency decoded ->
        0 <= nextHealthcheckId w < int_max - 1 ->
        (serve r w).2 = None
        /\ (serve (POST_jobs body') (serve r w).1).2 =
           Some {| code := StatusCreated;
                   written := Job (set_Id decoded (nextHealthcheckId w + 2)) |}).
Proof.
  split; [apply serve_nextHealthcheckId |].
  intros body body' failed decoded -> Hd Hf Hd' Hf' Hn.
  unfold serve. cbn [handle]. rewrite exec_handleAddJob, Hd.
  destruct (Z.leb_spec (Frequency failed) 0) as [_ | Hgt]; [| lia]. cbn [fst snd].
  split; [reflexivity |]. rewrite exec_handleAddJob, Hd'.
  destruct (Z.leb_spec (Frequency decoded) 0) as [Hle | _]; [lia |]. cbn.
  rewrite (wrap_int_succ (nextHealthcheckId w)) by (unfold int_min, int_max in *; lia).
  rewrite (wrap_int_succ (nextHealthcheckId w + 1)) by (unfold int_min, int_max in *; lia).
  do 4 f_equal. lia.
Qed.

(** Every key is positive and at most the counter. *)
Definition keys_below (w : World) : Prop :=
  forall id job, healthchecks w !! id = Some job -> 0 < id <= nextHealthcheckId w.

Lemma serve_keys_below (r : Request) (w : World) :
  keys_below w -> 0 <= nextHealthcheckId w < int_max -> keys_below (serve r w).1.
Proof.
  intros Hk Hn.
  assert (wrap_int (nextHealthcheckId w + 1) = nextHealthcheckId w + 1) as Hwrap
    by (apply wrap_int_succ; unfold int_min; lia).
  rewrite serve_world. destruct r as [body | | jobId | jobId | jobId body]; cbn [handle].
  - rewrite exec_handleAddJob.
    destruct (Decode body HealthcheckQuery_zero) as [decoded [e |]]; [exact Hk |].
    destruct (Frequency decoded <=? 0); intros id job; cbn; rewrite Hwrap.
    + intros Hj. apply Hk in Hj. lia.
    + rewrite lookup_insert. case_decide as Hid; [lia |]. intros Hj. apply Hk in Hj. lia.
  - exact Hk.
  - rewrite exec_handleGetJob. destruct (healthchecks w !! jobId); exact Hk.
  - rewrite exec_handleDeleteJob, exec_StopHealthcheck.
    destruct (healthchecks w !! jobId) as [job |]; [| exact Hk].
    destruct (chans w !! quit job) as [[|] |]; try exact Hk.
    intros id job'. cbn. rewrite lookup_delete. case_decide; [discriminate | apply Hk].
  - rewrite exec_handlePutJob.
    destruct (Decode body HealthcheckQuery_zero) as [decoded [e |]]; [exact Hk |].
    rewrite exec_UpdateHealthcheck.
    destruct (healthchecks w !! jobId) as [job |] eqn:Hj; [| exact Hk].
    destruct (tickers w !! ticker job) as [tk |]; [| exact Hk]. cbn zeta.
    destruct (Frequency decoded <=? 0); [exact Hk |].
    destruct (chans w !! quit job) as [[|] |]; try exact Hk.
    intros id job'. cbn. rewrite lookup_insert. case_decide as Hid; [| apply Hk].
    intros _. subst id. by apply Hk in Hj.
Qed.

Lemma serve_nextHealthcheckId_step (r : Request) (w : World) :
  0 <= nextHealthcheckId w < int_max ->
  nextHealthcheckId w <= nextHealthcheckId (serve r w).1 <= nextHealthcheckId w + 1.
Proof.
  intros Hn. rewrite serve_nextHealthcheckId.
  assert (wrap_int (nextHealthcheckId w + 1) = nextHealthcheckId w + 1) as Hwrap
    by (apply wrap_int_succ; unfold int_min; lia).
  destruct r as [body | | | |]; try lia.
  destruct (Decode body HealthcheckQuery_zero).2; lia.
Qed.

Lemma serve_all_keys_below (rs : list Request) (w : World) :
  keys_below w -> 0 <= nextHealthcheckId w ->
  nextHealthcheckId w + Z.of_nat (length rs) <= int_max ->
  keys_below (serve_all rs w).1
  /\ nextHealthcheckId w <= nextHealthcheckId (serve_all rs w).1
                         <= nextHealthcheckId w + Z.of_nat (length rs).
Proof.
  revert w. induction rs as [| r rs IH]; intros w Hk Hn Hlen; [cbn; split; [exact Hk | lia] |].
  cbn [length] in Hlen.
  pose proof (serve_keys_below r w Hk ltac:(lia)) as Hk1.
  pose proof (serve_nextHealthcheckId_step r w ltac:(lia)) as Hn1.
  cbn [serve_all]. destruct (serve r w) as [w1 resp]. cbn [fst] in *.
  destruct (IH w1 Hk1 ltac:(lia) ltac:(lia)) as [Hk2 Hn2].
  destruct (serve_all rs w1) as [w2 resps]. cbn [fst length] in *.
  split; [exact Hk2 | lia].
Qed.

Lemma keys_below_new : keys_below NewHealthcheckServer.
Proof. intros id job. cbn. rewrite lookup_empty. discriminate. Qed.

(** The jobs a list request shows. *)
Definition listed (w : World) : list HealthcheckQuery :=
  healthcheck <$> (map_to_list (healthchecks w)).*2.

(** Creating a job, then fetching and listing it.  After any requests
    served one after the other from a new server, fewer than 2^63 - 1 of
    them, a creation whose body decodes with a positive frequency is
    answered 201 with an id that was not a key; fetching that id answers
    200 with the same job as the 201; the list gains exactly that job; and
    no entry that was there is replaced or removed. *)
Theorem Add_then_Get (rs : list Request) (body : RequestBody) (decoded : HealthcheckQuery) :
  Z.of_nat (length rs) < int_max ->
  Decode body HealthcheckQuery_zero = (decoded, None) ->
  0 < Frequency decoded ->
  exists w w' id,
    w = (serve_all rs NewHealthcheckServer).1
    /\ id = nextHealthcheckId w + 1
    /\ healthchecks w !! id = None
    /\ serve (POST_jobs body) w =
         (w', Some {| code := StatusCreated; written := Job (set_Id decoded id) |})
    /\ serve (GET_job id) w' =
         (w', Some {| code := StatusOK; written := Job (set_Id decoded id) |})
    /\ serve GET_jobs w' = (w', Some {| code := StatusOK; written := Jobs (listed w') |})
    /\ listed w' ≡ₚ set_Id decoded id :: listed w
    /\ (forall j, j <> id -> healthchecks w' !! j = healthchecks w !! j).
Proof.
  intros Hlen Hd Hf.
  destruct (serve_all_keys_below rs NewHealthcheckServer keys_below_new
              ltac:(cbn; lia) ltac:(cbn; lia)) as [Hk Hn].
  set (w := (serve_all rs NewHealthcheckServer).1) in *. cbn in Hn.
  assert (wrap_int (nextHealthcheckId w + 1) = nextHealthcheckId w + 1) as Hwrap
    by (apply wrap_int_succ; unfold int_min; lia).
  assert (healthchecks w !! (nextHealthcheckId w + 1) = None) as Hfresh.
  { destruct (healthchecks w !! (nextHealthcheckId w + 1)) as [job |] eqn:Hj; [| reflexivity].
    apply Hk in Hj. lia. }
  exists w, (added decoded w), (nextHealthcheckId w + 1).
  split; [reflexivity |]. split; [reflexivity |]. split; [exact Hfresh |].
  split.
  { unfold serve. cbn [handle]. rewrite exec_handleAddJob, Hd.
    destruct (Z.leb_spec (Frequency decoded) 0) as [Hle |]; [lia |]. by rewrite Hwrap. }
  split.
  { unfold serve. cbn [handle]. rewrite exec_handleGetJob. cbn.
    by rewrite Hwrap, lookup_insert_eq. }
  split; [reflexivity |]. split.
  - unfold listed. cbn. rewrite Hwrap, map_to_list_insert by exact Hfresh. reflexivity.
  - intros j Hne. cbn. rewrite Hwrap. by rewrite lookup_insert_ne.
Qed.

(** Deleting a job, then listing.  In a state reached one request at a
    time: deleting a known id removes exactly its job from the list;
    deleting an unknown id leaves the list as it is; and a second delete of
    the same id changes nothing at all. *)
Theorem Delete_removes_one (w : World) (jobId : healthcheckId) :
  reachable w ->
  (forall job, healthchecks w !! jobId = Some job ->
     listed w ≡ₚ healthcheck job :: listed (serve (DELETE_job jobId) w).1)
  /\ (healthchecks w !! jobId = None -> listed (serve (DELETE_job jobId) w).1 = listed w)
  /\ serve (DELETE_job jobId) (serve (DELETE_job jobId) w).1 =
     ((serve (DELETE_job jobId) w).1, Some {| code := StatusNoContent; written := Nothing |}).
Proof.
  intros Hw. apply reachable_consistent in Hw.
  unfold serve at 1 2 4 5. cbn [handle]. rewrite exec_handleDeleteJob, exec_StopHealthcheck.
  destruct (healthchecks w !! jobId) as [job |] eqn:Hj.
  - rewrite (quit_open w Hw jobId job Hj). cbn [fst].
    split; [| split; [discriminate |]].
    + intros job' [= <-]. unfold listed. cbn.
      rewrite <- (map_to_list_delete (healthchecks w) jobId job Hj). reflexivity.
    + unfold serve. cbn [handle]. rewrite exec_handleDeleteJob, exec_StopHealthcheck. cbn.
      by rewrite lookup_delete_eq.
  - cbn [fst]. split; [discriminate |]. split; [reflexivity |].
    unfold serve. cbn [handle]. by rewrite exec_handleDeleteJob, exec_StopHealthcheck, Hj.
Qed.

(** Creating a job and deleting it again.  After any requests served one
    after the other from a new server, fewer than 2^63 - 1 of them, a
    successful creation followed by the deletion of the id it announced
    gives back the mapping as it was.  The id is used up, the channel made
    for the job is closed, and the ticker made for it is left running:
    only its runner stops it. *)
Theorem Add_then_Delete (rs : list Request) (body : RequestBody) (decoded : HealthcheckQuery) :
  Z.of_nat (length rs) < int_max ->
  Decode body HealthcheckQuery_zero = (decoded, None) ->
  0 < Frequency decoded ->
  exists w w2,
    w = (serve_all rs NewHealthcheckServer).1
    /\ serve (DELETE_job (nextHealthcheckId w + 1)) (serve (POST_jobs body) w).1 =
         (w2, Some {| code := StatusNoContent; written := Nothing |})
    /\ healthchecks w2 = healthchecks w
    /\ nextHealthcheckId w2 = nextHealthcheckId w + 1
    /\ chans w2 = chans w ++ [true]
    /\ tickers w2 = tickers w ++ [{| period := Frequency decoded;
                                     stopped := false; waiting := false |}]
    /\ goroutines w2 = goroutines w ++ [Spawned (nextHealthcheckId w + 1)].
Proof.
  intros Hlen Hd Hf.
  destruct (serve_all_keys_below rs NewHealthcheckServer keys_below_new
              ltac:(cbn; lia) ltac:(cbn; lia)) as [Hk Hn].
  set (w := (serve_all rs NewHealthcheckServer).1) in *. cbn in Hn.
  assert (wrap_int (nextHealthcheckId w + 1) = nextHealthcheckId w + 1) as Hwrap
    by (apply wrap_int_succ; unfold int_min; lia).
  assert (healthchecks w !! (nextHealthcheckId w + 1) = None) as Hfresh.
  { destruct (healthchecks w !! (nextHealthcheckId w + 1)) as [job |] eqn:Hj; [| reflexivity].
    apply Hk in Hj. lia. }
  exists w. eexists. split; [reflexivity |].
  unfold serve at 2. cbn [handle]. rewrite exec_handleAddJob, Hd.
  destruct (Z.leb_spec (Frequency decoded) 0) as [Hle |]; [lia |]. cbn [fst].
  unfold serve. cbn [handle]. rewrite exec_handleDeleteJob, exec_StopHealthcheck.
  cbn. rewrite Hwrap, lookup_insert_eq. cbn.
  rewrite lookup_app_r, Nat.sub_diag by lia. cbn.
  split; [reflexivity |]. cbn. rewrite ?Hwrap.
  split; [by apply delete_insert_id |]. split; [reflexivity |].
  split; [| split; reflexivity].
  rewrite insert_app_r_alt, Nat.sub_diag by lia. reflexivity.
Qed.
End Invariants.

(** ** Routing *)

(** [*http.Request], the three parts the program reads: [r.URL.Path],
    [r.Method] and [r.Body]. *)
Record http_Request : Type := {
  r_Path : string;
  r_Method : string;
  r_Body : RequestBody;
}.

Definition StatusMethodNotAllowed : Z := 405.
Definition MethodPost : string := "POST".
Definition MethodPut : string := "PUT".
Definition MethodDelete : string := "DELETE".

Definition is_digit (c : ascii) : bool :=
  (48 <=? Z.of_nat (nat_of_ascii c)) && (Z.of_nat (nat_of_ascii c) <=? 57).

Fixpoint all_digits (s : string) : bool :=
  match s with
  | EmptyString => true
  | String c s' => is_digit c && all_digits s'
  end.

(** [s] without the prefix [p], when it has it. *)
Fixpoint strip_prefix (p s : string) : option string :=
  match p, s with
  | EmptyString, _ => Some s
  | String a p', String b s' => if Ascii.eqb a b then strip_prefix p' s' else None
  | String _ _, EmptyString => None
  end.

(** [var jobPathRegex = regexp.MustCompile("^/jobs/([0-9]+)$")], as
    [FindSubmatch] applies it: [Some] of the group, the digits, when the
    whole path is [/jobs/] followed by one digit or more; [None] ([nil],
    and [MatchString] false) otherwise. *)
Definition jobPathRegex (path : string) : option string :=
  match strip_prefix "/jobs/" path with
  | Some rest =>
      match rest with
      | EmptyString => None
      | String _ _ => if all_digits rest then Some rest else None
      end
  | None => None
  end.

(** The number a string of digits denotes, read from the left onto [acc];
    [None] at a character that is not a digit. *)
Fixpoint digits_value (acc : Z) (s : string) : option Z :=
  match s with
  | EmptyString => Some acc
  | String c s' =>
      if is_digit c then digits_value (acc * 10 + (Z.of_nat (nat_of_ascii c) - 48)) s'
      else None
  end.

Definition quote (s : string) : string :=
  String (ascii_of_nat 34) (s ++ String (ascii_of_nat 34) "").

(** [strconv.Atoi]: an optional sign and one decimal digit or more, read as
    an [int]; an error on any other string and on a value out of range. *)
Definition Atoi (s : string) : Z + error :=
  let syntax := ("strconv.Atoi: parsing " ++ quote s ++ ": invalid syntax")%string in
  let range := ("strconv.Atoi: parsing " ++ quote s ++ ": value out of range")%string in
  let '(neg, ds) :=
    match s with
    | String c s' =>
        if Ascii.eqb c "-" then (true, s')
        else if Ascii.eqb c "+" then (false, s')
        else (false, s)
    | EmptyString => (false, s)
    end in
  match ds with
  | EmptyString => inr syntax
  | String _ _ =>
      match digits_value 0 ds with
      | None => inr syntax
      | Some v =>
          let n := if neg : bool then - v else v in
          if (int_min <=? n) && (n <=? int_max) then inl n else inr range
      end
  end.

Section Routing.
Context `{Packages}.

Definition status_only (c : Z) : prog Response :=
  mret {| code := c; written := Nothing |}.

(** [func (h *HealthcheckServer) handle(w http.ResponseWriter, r *http.Request)],
    from the request as it arrives. *)
Definition handle_http (r : http_Request) : prog Response :=
  if String.eqb (r_Path r) "/jobs" || String.eqb (r_Path r) "/jobs/" then
    if String.eqb (r_Method r) MethodGet then handleGetAllJobs
    else if String.eqb (r_Method r) MethodPost then handleAddJob (r_Body r)
    else status_only StatusMethodNotAllowed
  else
    match jobPathRegex (r_Path r) with
    | Some digits =>
        match Atoi digits with
        | inr _ => status_only StatusBadRequest
        | inl s =>
            let jobId := s in
            if String.eqb (r_Method r) MethodGet then handleGetJob jobId
            else if String.eqb (r_Method r) MethodDelete then handleDeleteJob jobId
            else if String.eqb (r_Method r) MethodPut then handlePutJob jobId (r_Body r)
            else status_only StatusMethodNotAllowed
        end
    | None => status_only StatusNotFound
    end.
End Routing.

(** The decimal numeral of a number that is not negative, as Go prints an
    [int] ([fmtInt] of package time, [strconv.Itoa]): the digits from the
    last to the first, until nothing is left. *)
Fixpoint decimal_digits (fuel : nat) (v : Z) (acc : string) : string :=
  match fuel with
  | O => acc
  | S fuel' =>
      let acc' := String (ascii_of_nat (Z.to_nat (v mod 10) + 48)) acc in
      if v / 10 =? 0 then acc' else decimal_digits fuel' (v / 10) acc'
  end.

Definition decimal (v : Z) : string :=
  decimal_digits (S (Z.to_nat (Z.log2 v))) v "".

Example decimal_0 : decimal 0 = "0".
Proof. vm_compute. reflexivity. Qed.

Example decimal_int_max : decimal int_max = "9223372036854775807".
Proof. vm_compute. reflexivity. Qed.

Example Atoi_int_max : Atoi "9223372036854775807" = inl int_max.
Proof. vm_compute. reflexivity. Qed.

Example Atoi_too_big :
  Atoi "9223372036854775808" =
  inr ("strconv.Atoi: parsing " ++ quote "9223372036854775808" ++ ": value out of range")%string.
Proof. vm_compute. reflexivity. Qed.

Example Atoi_007 : Atoi "007" = inl 7.
Proof. vm_compute. reflexivity. Qed.

Example jobPathRegex_examples :
  jobPathRegex "/jobs/42" = Some "42"
  /\ jobPathRegex "/jobs/" = None
  /\ jobPathRegex "/jobs/4a" = None
  /\ jobPathRegex "/jobs/-1" = None
  /\ jobPathRegex "/jobs/42/" = None
  /\ jobPathRegex "/job/42" = None.
Proof. by_computation. Qed.

Lemma strip_prefix_Some (p s rest : string) :
  strip_prefix p s = Some rest <-> s = (p ++ rest)%string.
Proof.
  revert s. induction p as [| a p IH]; intros s; cbn.
  - split; [by intros [= ->] | by intros ->].
  - destruct s as [| b s]; [split; [discriminate | discriminate] |].
    destruct (Ascii.eqb_spec a b) as [-> | Hne].
    + rewrite IH. split; [by intros -> | by intros [= ->]].
    + split; [discriminate | intros [= ? _]; congruence].
Qed.

Lemma jobPathRegex_Some (path digits : string) :
  jobPathRegex path = Some digits <->
  path = ("/jobs/" ++ digits)%string /\ digits <> "" /\ all_digits digits = true.
Proof.
  unfold jobPathRegex. split.
  - destruct (strip_prefix "/jobs/" path) as [rest |] eqn:Hp; [| discriminate].
    apply strip_prefix_Some in Hp. destruct rest as [| c rest]; [discriminate |].
    destruct (all_digits (String c rest)) eqn:Hd; [| discriminate].
    intros [= <-]. by repeat split.
  - intros (-> & Hne & Hd).
    assert (strip_prefix "/jobs/" ("/jobs/" ++ digits) = Some digits) as ->
      by (by apply strip_prefix_Some).
    destruct digits as [| c rest]; [contradiction |]. by rewrite Hd.
Qed.

Lemma digits_value_all_digits (s : string) (acc : Z) :
  all_digits s = true -> 0 <= acc ->
  exists v, digits_value acc s = Some v /\ acc <= v.
Proof.
  revert acc. induction s as [| c s IH]; intros acc Hd Ha; cbn in *.
  - exists acc. split; [reflexivity | lia].
  - apply andb_true_iff in Hd as [Hc Hs]. rewrite Hc.
    unfold is_digit in Hc. apply andb_true_iff in Hc as [Hlo Hhi].
    destruct (IH (acc * 10 + (Z.of_nat (nat_of_ascii c) - 48)) Hs ltac:(lia)) as (v & Hv & Hle).
    exists v. split; [exact Hv | lia].
Qed.

Lemma is_digit_not_sign (c : ascii) :
  is_digit c = true -> Ascii.eqb c "-" = false /\ Ascii.eqb c "+" = false.
Proof.
  intros Hc. split.
  - destruct (Ascii.eqb_spec c "-") as [-> |]; [discriminate | reflexivity].
  - destruct (Ascii.eqb_spec c "+") as [-> |]; [discriminate | reflexivity].
Qed.

(** [Atoi] on one digit or more: the number they denote, unless it passes
    the greatest [int]. *)
Lemma Atoi_digits (s : string) :
  s <> "" -> all_digits s = true ->
  exists v, digits_value 0 s = Some v /\ 0 <= v
            /\ (v <= int_max -> Atoi s = inl v)
            /\ (int_max < v -> exists e, Atoi s = inr e).
Proof.
  intros Hne Hd. destruct (digits_value_all_digits s 0 Hd ltac:(lia)) as (v & Hv & Hle).
  exists v. split; [exact Hv |]. split; [exact Hle |].
  destruct s as [| c s]; [contradiction |].
  pose proof Hd as Hd'. cbn in Hd'. apply andb_true_iff in Hd' as [Hc _].
  destruct (is_digit_not_sign c Hc) as [Hm Hp].
  unfold Atoi. rewrite Hm, Hp, Hv. unfold int_min, int_max in *. split.
  - intros Hmax. destruct (Z.leb_spec (- 2 ^ 63) v); [| lia].
    destruct (Z.leb_spec v (2 ^ 63 - 1)); [reflexivity | lia].
  - intros Hmax. destruct (Z.leb_spec (- 2 ^ 63) v); [| lia].
    destruct (Z.leb_spec v (2 ^ 63 - 1)); [lia |]. by eexists.
Qed.

Lemma digit_char (d : Z) :
  0 <= d < 10 ->
  is_digit (ascii_of_nat (Z.to_nat d + 48)) = true
  /\ Z.of_nat (nat_of_ascii (ascii_of_nat (Z.to_nat d + 48))) - 48 = d.
Proof.
  intros Hd.
  assert (d = 0 \/ d = 1 \/ d = 2 \/ d = 3 \/ d = 4 \/ d = 5 \/ d = 6 \/ d = 7 \/ d = 8 \/ d = 9)
    as Hcases by lia.
  repeat (destruct Hcases as [-> | Hcases]; [by split |]). subst d. by split.
Qed.

Lemma decimal_digits_value (fuel : nat) (v : Z) (acc : string) :
  0 <= v < 2 ^ Z.of_nat fuel ->
  digits_value 0 (decimal_digits fuel v acc) = digits_value v acc.
Proof.
  revert v acc. induction fuel as [| fuel IH]; intros v acc Hv.
  { cbn in Hv. assert (v = 0) as -> by lia. reflexivity. }
  cbn [decimal_digits].
  destruct (digit_char (v mod 10) ltac:(apply Z.mod_pos_bound; lia)) as [Hc Hval].
  assert (v = v / 10 * 10 + v mod 10) as Hdiv by (pose proof (Z.div_mod v 10); lia).
  destruct (Z.eqb_spec (v / 10) 0) as [Hz | Hnz].
  - cbn [digits_value]. rewrite Hc, Hval. f_equal. lia.
  - rewrite IH.
    + cbn [digits_value]. rewrite Hc, Hval. f_equal. lia.
    + rewrite Nat2Z.inj_succ, Z.pow_succ_r in Hv by lia.
      split; [apply Z.div_pos; lia |]. apply Z.div_lt_upper_bound; lia.
Qed.

Lemma decimal_digits_all_digits (fuel : nat) (v : Z) (acc : string) :
  0 <= v -> all_digits (decimal_digits fuel v acc) = all_digits acc.
Proof.
  revert v acc. induction fuel as [| fuel IH]; intros v acc Hv; [reflexivity |].
  cbn [decimal_digits].
  destruct (digit_char (v mod 10) ltac:(apply Z.mod_pos_bound; lia)) as [Hc _].
  destruct (v / 10 =? 0).
  - cbn. by rewrite Hc.
  - rewrite IH by (apply Z.div_pos; lia). cbn. by rewrite Hc.
Qed.

Lemma decimal_digits_nonempty (fuel : nat) (v : Z) (acc : string) :
  acc <> "" -> decimal_digits fuel v acc <> "".
Proof.
  revert v acc. induction fuel as [| fuel IH]; intros v acc Hne; [exact Hne |].
  cbn [decimal_digits]. destruct (v / 10 =? 0); [discriminate |].
  apply IH. discriminate.
Qed.

Lemma decimal_spec (v : Z) :
  0 <= v ->
  decimal v <> "" /\ all_digits (decimal v) = true /\ digits_value 0 (decimal v) = Some v.
Proof.
  intros Hv. unfold decimal. split; [| split].
  - cbn [decimal_digits]. destruct (v / 10 =? 0); [discriminate |].
    apply decimal_digits_nonempty. discriminate.
  - by rewrite decimal_digits_all_digits.
  - rewrite decimal_digits_value; [reflexivity |]. split; [exact Hv |].
    destruct (Z.eq_dec v 0) as [-> | Hnz]; [reflexivity |].
    rewrite Nat2Z.inj_succ, Z2Nat.id by apply Z.log2_nonneg.
    apply Z.log2_spec. lia.
Qed.

Section RoutingProperties.
Context `{Packages}.

(** What [handle] does with a path of one job once the id is read. *)
Definition dispatch_job (jobId : healthcheckId) (method : string) (body : RequestBody)
  : prog Response :=
  if String.eqb method MethodGet then handleGetJob jobId
  else if String.eqb method MethodDelete then handleDeleteJob jobId
  else if String.eqb method MethodPut then handlePutJob jobId body
  else status_only StatusMethodNotAllowed.

Lemma handle_http_digits (digits method : string) (body : RequestBody) (v : Z) :
  digits <> "" ->
  all_digits digits = true ->
  digits_value 0 digits = Some v ->
  handle_http {| r_Path := "/jobs/" ++ digits; r_Method := method; r_Body := body |} =
  (if int_max <? v then status_only StatusBadRequest else dispatch_job v method body).
Proof.
  intros Hne Hd Hv.
  destruct (Atoi_digits digits Hne Hd) as (v' & Hv' & _ & Hin & Hout).
  assert (v' = v) as -> by congruence.
  unfold handle_http. cbn [r_Path r_Method r_Body].
  assert (jobPathRegex ("/jobs/" ++ digits) = Some digits) as ->
    by (by apply jobPathRegex_Some).
  destruct digits as [| c ds]; [contradiction |].
  replace (String.eqb ("/jobs/" ++ String c ds) "/jobs") with false by reflexivity.
  replace (String.eqb ("/jobs/" ++ String c ds) "/jobs/") with false by reflexivity.
  cbn [orb]. destruct (Z.ltb_spec int_max v) as [Hgt | Hle].
  - by destruct (Hout Hgt) as [e ->].
  - by rewrite (Hin Hle).
Qed.

(** The path of one job.  For a path [/jobs/] followed by one digit or
    more, the job id is the number the digits denote: GET, DELETE and PUT
    go to their handler with that id and every other method is answered
    405.  Digits that denote more than the greatest [int] are answered 400
    whatever the method.  A leading zero changes nothing: [/jobs/07] is
    [/jobs/7]. *)
Theorem handle_http_job_path (digits method : string) (body : RequestBody) :
  digits <> "" ->
  all_digits digits = true ->
  exists v,
    digits_value 0 digits = Some v
    /\ 0 <= v
    /\ handle_http {| r_Path := "/jobs/" ++ digits; r_Method := method; r_Body := body |} =
       (if int_max <? v then status_only StatusBadRequest else dispatch_job v method body)
    /\ handle_http {| r_Path := "/jobs/" ++ String "0" digits;
                      r_Method := method; r_Body := body |} =
       handle_http {| r_Path := "/jobs/" ++ digits; r_Method := method; r_Body := body |}.
Proof.
  intros Hne Hd.
  destruct (digits_value_all_digits digits 0 Hd ltac:(lia)) as (v & Hv & Hpos).
  exists v. split; [exact Hv |]. split; [exact Hpos |].
  rewrite (handle_http_digits digits method body v Hne Hd Hv). split; [reflexivity |].
  by rewrite (handle_http_digits (String "0" digits) method body v).
Qed.

(** Every id has a path.  For every id from 0 to the greatest [int], so
    for every id a creation can announce, the path [/jobs/] followed by the
    decimal numeral of the id reaches the handlers with exactly that id. *)
Theorem every_id_has_a_path (id : healthcheckId) (method : string) (body : RequestBody) :
  0 <= id <= int_max ->
  handle_http {| r_Path := "/jobs/" ++ decimal id; r_Method := method; r_Body := body |} =
  dispatch_job id method body.
Proof.
  intros Hid. destruct (decimal_spec id ltac:(lia)) as (Hne & Hd & Hv).
  rewrite (handle_http_digits (decimal id) method body id Hne Hd Hv).
  destruct (Z.ltb_spec int_max id); [lia | reflexivity].
Qed.

(** Everything else is not found.  A path that is neither [/jobs], nor
    [/jobs/], nor [/jobs/] followed by digits only is answered 404 with the
    state unchanged, whatever the method and the body: a trailing slash
    after the id, a sign before it, or a letter in it are not accepted. *)
Theorem handle_http_not_found (r : http_Request) (w : World) :
  r_Path r <> "/jobs" ->
  r_Path r <> "/jobs/" ->
  (forall digits, digits <> "" -> all_digits digits = true ->
     r_Path r <> ("/jobs/" ++ digits)%string) ->
  exec (handle_http r) w = Returned w {| code := StatusNotFound; written := Nothing |}.
Proof.
  intros H1 H2 H3. unfold handle_http.
  apply String.eqb_neq in H1, H2. rewrite H1, H2. cbn [orb].
  destruct (jobPathRegex (r_Path r)) as [digits |] eqn:Hr; [| reflexivity].
  apply jobPathRegex_Some in Hr as (Hp & Hne & Hd). by destruct (H3 digits Hne Hd).
Qed.

(** Only three kinds of request can change the state: POST on the
    collection path, and PUT and DELETE on the path of a job.  Every other
    request, whatever its method, path and body, leaves the whole state as
    it was and does not panic: GET in particular, DELETE and PUT on the
    collection, POST on the path of a job, and any other method. *)
Theorem handle_http_reads_only (r : http_Request) (w : World) :
  (r_Method r = MethodPost -> r_Path r <> "/jobs" /\ r_Path r <> "/jobs/") ->
  (r_Method r = MethodPut \/ r_Method r = MethodDelete ->
     forall digits, digits <> "" -> all_digits digits = true ->
       r_Path r <> ("/jobs/" ++ digits)%string) ->
  exists resp, exec (handle_http r) w = Returned w resp.
Proof.
  intros Hpost Hput. unfold handle_http.
  destruct (String.eqb (r_Path r) "/jobs" || String.eqb (r_Path r) "/jobs/") eqn:Hc.
  - destruct (String.eqb_spec (r_Method r) MethodGet) as [Hg | Hg];
      [rewrite exec_handleGetAllJobs; by eexists |].
    destruct (String.eqb_spec (r_Method r) MethodPost) as [Hp | Hp]; [| by eexists].
    destruct (Hpost Hp) as [H1 H2]. apply String.eqb_neq in H1, H2.
    rewrite H1, H2 in Hc. discriminate.
  - destruct (jobPathRegex (r_Path r)) as [digits |] eqn:Hr; [| by eexists].
    apply jobPathRegex_Some in Hr as (Hpath & Hne & Hd).
    destruct (Atoi digits) as [s | e]; [| by eexists]. cbn zeta.
    destruct (String.eqb_spec (r_Method r) MethodGet) as [Hg | Hg].
    { rewrite exec_handleGetJob. destruct (healthchecks w !! s); by eexists. }
    destruct (String.eqb_spec (r_Method r) MethodDelete) as [Hdel | Hdel];
      [by destruct (Hput (or_intror Hdel) digits Hne Hd) |].
    destruct (String.eqb_spec (r_Method r) MethodPut) as [Hp | Hp];
      [by destruct (Hput (or_introl Hp) digits Hne Hd) |].
    by eexists.
Qed.
End RoutingProperties.

(** ** Encoding a job *)

(** [fmtFrac] of package time: the last [prec] decimal digits of [v]
    without their trailing zeros, after a point, put before [acc] (nothing
    when they are all zero), and [v] without those digits. *)
Fixpoint fmtFrac (prec : nat) (v : Z) (print : bool) (acc : string) : string * Z :=
  match prec with
  | O => (if print then String "." acc else acc, v)
  | S prec' =>
      let digit := v mod 10 in
      let print := print || negb (digit =? 0) in
      let acc := if print then String (ascii_of_nat (Z.to_nat digit + 48)) acc else acc in
      fmtFrac prec' (v / 10) print acc
  end.

(** [func (d Duration) String() string] of package time. *)
Definition Duration_String (d : Duration) : string :=
  let u := Z.abs d in
  let text :=
    if u <? Second then
      if u =? 0 then "0s"
      else
        let '(prec, unit) :=
          if u <? Microsecond then (0%nat, "ns")
          else if u <? Millisecond
               then (3%nat, String (ascii_of_nat 194) (String (ascii_of_nat 181) "s"))
               else (6%nat, "ms") in
        let '(frac, u) := fmtFrac prec u false unit in
        (decimal u ++ frac)%string
    else
      let '(frac, u) := fmtFrac 9 u false "s" in
      let text := (decimal (u mod 60) ++ frac)%string in
      let u := u / 60 in
      if 0 <? u then
        let text := (decimal (u mod 60) ++ "m" ++ text)%string in
        let u := u / 60 in
        if 0 <? u then (decimal u ++ "h" ++ text)%string else text
      else text in
  if d <? 0 then String "-" text else text.

(** The normal forms of the README. *)
Example Duration_String_examples :
  Duration_String (2 * Minute) = "2m0s"
  /\ Duration_String (30 * Second) = "30s"
  /\ Duration_String (5 * Minute) = "5m0s"
  /\ Duration_String (90 * Minute) = "1h30m0s"
  /\ Duration_String (1500 * Millisecond) = "1.5s"
  /\ Duration_String 0 = "0s"
  /\ Duration_String (- 1500 * Microsecond) = "-1.5ms".
Proof. by_computation. Qed.

(** The anonymous struct [MarshalJSON] hands to [json.Marshal]; [jq_query]
    is left out of the object when [m_JqQuery] is [None]. *)
Record marshalled : Type := {
  m_Id : healthcheckId;                    (* `json:"id"` *)
  m_Url : string;                          (* `json:"url"` *)
  m_Method : string;                       (* `json:"method"` *)
  m_ExpectedStatus : Z;                    (* `json:"expected_status"` *)
  m_Frequency : string;                    (* `json:"frequency"` *)
  m_JqQuery : option marshalledJqQuery;    (* `json:"jq_query,omitempty"` *)
}.

(** What [json.Unmarshal(data, &d)] in [UnmarshalJSON] reads from the
    object [json.Marshal] writes for a [marshalled]: the five members [d]
    has a field for.  The member [id] has none and is skipped. *)
Definition read_back (m : marshalled) : payload :=
  {| d_Url := m_Url m; d_Method := m_Method m; d_ExpectedStatus := m_ExpectedStatus m;
     d_Frequency := m_Frequency m; d_JqQuery := m_JqQuery m |}.

Section Encoding.
Context `{Packages}.

(** The two library methods [MarshalJSON] calls: [time.Duration.String]
    and the [String] method of [gojq.Query]. *)
Variable String_of_Duration : Duration -> string.
Variable String_of_Query : gojq_Query -> string.

(** [func (h HealthcheckQuery) MarshalJSON() ([]byte, error)], up to the
    call of [json.Marshal]. *)
Definition MarshalJSON (h : HealthcheckQuery) : marshalled :=
  let jqQuery :=
    match Query (JqQuery_ h) with
    | None => None
    | Some q => Some {| mq_Query := String_of_Query q;
                        mq_Expectation := Expectation (JqQuery_ h) |}
    end in
  {| m_Id := Id h; m_Url := Url h; m_Method := Method h;
     m_ExpectedStatus := ExpectedStatus h;
     m_Frequency := String_of_Duration (Frequency h);
     m_JqQuery := jqQuery |}.

(** Encoding a job and decoding it again.  When the text of the frequency
    parses back to the frequency and the text of the query, if there is
    one, parses back to the query, decoding what [MarshalJSON] wrote gives
    back the url, the method, the expected status, the frequency, the query
    and its expectation, but not the id: the decoded job has the [Id] of
    the value it is decoded into (0 in the handlers), whatever id was
    written.  Without a query the expectation is not written, so the
    decoded job keeps the one of the value it is decoded into. *)
Theorem MarshalJSON_then_UnmarshalJSON (h h0 : HealthcheckQuery) :
  time_ParseDuration (String_of_Duration (Frequency h)) = inl (Frequency h) ->
  (forall q, Query (JqQuery_ h) = Some q -> gojq_Parse (String_of_Query q) = inl q) ->
  (Query (JqQuery_ h) = None -> Expectation (JqQuery_ h) = Expectation (JqQuery_ h0)) ->
  m_Id (MarshalJSON h) = Id h
  /\ Decode (Value (read_back (MarshalJSON h)) None) h0 = (set_Id h (Id h0), None).
Proof.
  intros Hf Hq He. split; [reflexivity |].
  destruct h as [id url method status freq [[q |] expectation]]; cbn in *.
  - unfold UnmarshalJSON. cbn. rewrite Hf, (Hq q eq_refl). reflexivity.
  - unfold UnmarshalJSON. cbn. rewrite Hf, <- (He eq_refl). reflexivity.
Qed.

(** [func UnsafeNewJqQuery(query string, expectation string) JqQuery]: the
    value, or the error it panics with. *)
Definition UnsafeNewJqQuery (query expectation : string) : JqQuery + error :=
  match gojq_Parse query with
  | inr err => inr err
  | inl q => inl {| Query := Some q; Expectation := expectation |}
  end.

(** [UnsafeNewJqQuery] and the decoder agree on queries.  For a body with
    a query whose frequency parses, decoding succeeds exactly when
    [UnsafeNewJqQuery] returns on its query and expectation, and the
    decoded job then holds the value it returns; when it panics, decoding
    fails with the error it panics with. *)
Theorem UnsafeNewJqQuery_as_decoded (d : payload) (err : option error) (mq : marshalledJqQuery)
    (f : Duration) (h0 : HealthcheckQuery) :
  d_JqQuery d = Some mq ->
  time_ParseDuration (d_Frequency d) = inl f ->
  match UnsafeNewJqQuery (mq_Query mq) (mq_Expectation mq) with
  | inl jq =>
      (Decode (Value d err) h0).2 = None /\ JqQuery_ (Decode (Value d err) h0).1 = jq
  | inr e => (Decode (Value d err) h0).2 = Some e
  end.
Proof.
  intros Hq Hf. unfold UnsafeNewJqQuery. cbn. unfold UnmarshalJSON. rewrite Hf, Hq.
  destruct (gojq_Parse (mq_Query mq)); [by split | reflexivity].
Qed.
End Encoding.


(** ** Concrete runs of the further properties *)

Section MoreRuns.
#[local] Existing Instance Sample.packages.

(** The entry of job 1 after the first request of the README. *)
Definition first_entry : healthcheckJob :=
  {| healthcheck := google_job 1 (2 * Minute); quit := 0%nat; ticker := 0%nat |}.

Lemma first_entry_stored : healthchecks one_job !! 1 = Some first_entry.
Proof. vm_compute. reflexivity. Qed.

Lemma first_entry_looping : goroutines one_job_looping !! 0%nat = Some (Looping first_entry).
Proof. vm_compute. reflexivity. Qed.

(** [runJob_one_record_per_tick] at the runner of job 1 after one tick. *)
Lemma runJob_one_record_per_tick_witness :
  goroutines (tick 0 one_job_looping) !! 0%nat = Some (Looping first_entry)
  /\ tickers (tick 0 one_job_looping) !! ticker first_entry =
     Some {| period := 2 * Minute; stopped := false; waiting := true |}
  /\ exists w',
       runJob_step 0 (case_ticker (Responds (answer 200 (NotJSON ""))))
         (tick 0 one_job_looping) =
       Some (w', [], [{| log_url := "https://google.com"; log_method := "GET";
                         log_expected_status := 200; log_status := "UP" |}]).
Proof.
  assert (goroutines (tick 0 one_job_looping) !! 0%nat = Some (Looping first_entry)) as Hg
    by (vm_compute; reflexivity).
  assert (tickers (tick 0 one_job_looping) !! ticker first_entry =
          Some {| period := 2 * Minute; stopped := false; waiting := true |}) as Ht
    by (vm_compute; reflexivity).
  split; [exact Hg |]. split; [exact Ht |].
  destruct (runJob_one_record_per_tick (tick 0 one_job_looping) 0 first_entry _
              (Responds (answer 200 (NotJSON ""))) Hg Ht) as [_ Hready].
  destruct (Hready eq_refl) as (w' & Hstep & _).
  exists w'. exact Hstep.
Defined.

(** [wg_counts_live_goroutines] at the server with one job and its runner. *)
Lemma wg_counts_live_goroutines_witness :
  reachable one_job_looping /\ wg one_job_looping = live_count (goroutines one_job_looping).
Proof.
  split; [exact one_job_looping_reachable |].
  exact (proj1 (wg_counts_live_goroutines one_job_looping one_job_looping_reachable)).
Defined.

(** [stored_frequency_positive] at job 1. *)
Lemma stored_frequency_positive_witness :
  reachable one_job
  /\ healthchecks one_job !! 1 = Some first_entry
  /\ 0 < Frequency (healthcheck first_entry).
Proof.
  split; [exact one_job_reachable |]. split; [exact first_entry_stored |].
  exact (proj1 (stored_frequency_positive one_job 1 first_entry one_job_reachable
                  first_entry_stored)).
Defined.

Lemma decode_google_every_0 :
  Decode (Value google_every_0 None) HealthcheckQuery_zero = (google_job 0 0, None).
Proof. vm_compute. reflexivity. Qed.

Lemma decode_google_5m :
  Decode (Value Sample.google_5m None) HealthcheckQuery_zero = (google_job 0 (5 * Minute), None).
Proof. vm_compute. reflexivity. Qed.

Lemma decode_status_page :
  Decode (Value status_page None) HealthcheckQuery_zero = (status_page_job 0, None).
Proof. vm_compute. reflexivity. Qed.

(** [Update_nonpositive_stops_ticker] at an update of job 1 to frequency 0. *)
Lemma Update_nonpositive_stops_ticker_witness :
  reachable one_job
  /\ healthchecks one_job !! 1 = Some first_entry
  /\ Frequency (google_job 0 0) <= 0
  /\ exists w' tk,
       serve (PUT_job 1 (Value google_every_0 None)) one_job = (w', None)
       /\ healthchecks w' = healthchecks one_job
       /\ tickers w' !! ticker first_entry = Some tk
       /\ stopped tk = true.
Proof.
  assert (Frequency (google_job 0 0) <= 0) as Hf by (vm_compute; discriminate).
  split; [exact one_job_reachable |]. split; [exact first_entry_stored |].
  split; [exact Hf |].
  destruct (Update_nonpositive_stops_ticker one_job 1 (Value google_every_0 None)
              (google_job 0 0) first_entry one_job_reachable first_entry_stored
              decode_google_every_0 Hf)
    as (w' & tk & Hs & Hm & _ & _ & _ & _ & Ht & Hstopped & _).
  exists w', tk. split; [exact Hs |]. split; [exact Hm |]. split; [exact Ht | exact Hstopped].
Defined.

Lemma first_entry_stored_looping : healthchecks one_job_looping !! 1 = Some first_entry.
Proof. vm_compute. reflexivity. Qed.

(** [Update_hands_over] at the README's update of job 1, its runner in its
    loop. *)
Lemma Update_hands_over_witness :
  reachable one_job_looping
  /\ healthchecks one_job_looping !! 1 = Some first_entry
  /\ 0 < Frequency (google_job 0 (5 * Minute))
  /\ exists w' job',
       (serve (PUT_job 1 (Value Sample.google_5m None)) one_job_looping).1 = w'
       /\ healthchecks w' !! 1 = Some job'
       /\ healthcheck job' = google_job 0 (5 * Minute)
       /\ chans w' !! quit first_entry = Some true.
Proof.
  assert (0 < Frequency (google_job 0 (5 * Minute))) as Hf by (vm_compute; reflexivity).
  split; [exact one_job_looping_reachable |]. split; [exact first_entry_stored_looping |].
  split; [exact Hf |].
  destruct (Update_hands_over one_job_looping 1 (Value Sample.google_5m None)
              (google_job 0 (5 * Minute)) first_entry one_job_looping_reachable
              first_entry_stored_looping decode_google_5m Hf)
    as (w' & job' & old & Hs & Hj & Hh & Hc & _).
  exists w', job'. split; [exact Hs |]. split; [exact Hj |]. split; [exact Hh | exact Hc].
Defined.

(** [Add_then_Get] at a second creation after the first request of the
    README. *)
Lemma Add_then_Get_witness :
  Z.of_nat (length [POST_jobs (Value Sample.google None)]) < int_max
  /\ 0 < Frequency (status_page_job 0)
  /\ exists w w' id,
       w = (serve_all [POST_jobs (Value Sample.google None)] NewHealthcheckServer).1
       /\ id = nextHealthcheckId w + 1
       /\ serve (GET_job id) w' =
            (w', Some {| code := StatusOK; written := Job (set_Id (status_page_job 0) id) |}).
Proof.
  assert (Z.of_nat (length [POST_jobs (Value Sample.google None)]) < int_max) as Hlen
    by (vm_compute; reflexivity).
  assert (0 < Frequency (status_page_job 0)) as Hf by (vm_compute; reflexivity).
  split; [exact Hlen |]. split; [exact Hf |].
  destruct (Add_then_Get [POST_jobs (Value Sample.google None)] (Value status_page None)
              (status_page_job 0) Hlen decode_status_page Hf)
    as (w & w' & id & Hw & Hid & _ & _ & Hget & _).
  exists w, w', id. split; [exact Hw |]. split; [exact Hid | exact Hget].
Defined.

(** [Delete_removes_one] at the deletion of job 1. *)
Lemma Delete_removes_one_witness :
  reachable one_job
  /\ listed one_job ≡ₚ healthcheck first_entry :: listed (serve (DELETE_job 1) one_job).1.
Proof.
  split; [exact one_job_reachable |].
  exact (proj1 (Delete_removes_one one_job 1 one_job_reachable) first_entry first_entry_stored).
Defined.

(** [Add_then_Delete] at a second creation, deleted again. *)
Lemma Add_then_Delete_witness :
  Z.of_nat (length [POST_jobs (Value Sample.google None)]) < int_max
  /\ 0 < Frequency (status_page_job 0)
  /\ exists w w2,
       w = (serve_all [POST_jobs (Value Sample.google None)] NewHealthcheckServer).1
       /\ serve (DELETE_job (nextHealthcheckId w + 1))
            (serve (POST_jobs (Value status_page None)) w).1 =
          (w2, Some {| code := StatusNoContent; written := Nothing |})
       /\ healthchecks w2 = healthchecks w.
Proof.
  assert (Z.of_nat (length [POST_jobs (Value Sample.google None)]) < int_max) as Hlen
    by (vm_compute; reflexivity).
  assert (0 < Frequency (status_page_job 0)) as Hf by (vm_compute; reflexivity).
  split; [exact Hlen |]. split; [exact Hf |].
  destruct (Add_then_Delete [POST_jobs (Value Sample.google None)] (Value status_page None)
              (status_page_job 0) Hlen decode_status_page Hf)
    as (w & w2 & Hw & Hdel & Hm & _).
  exists w, w2. split; [exact Hw |]. split; [exact Hdel | exact Hm].
Defined.

(** [handle_http_job_path] at [/jobs/7]. *)
Lemma handle_http_job_path_witness :
  "7" <> ""
  /\ all_digits "7" = true
  /\ exists v, digits_value 0 "7" = Some v /\ 0 <= v.
Proof.
  assert ("7" <> "") as Hne by discriminate.
  assert (all_digits "7" = true) as Hd by (vm_compute; reflexivity).
  split; [exact Hne |]. split; [exact Hd |].
  destruct (handle_http_job_path "7" "GET" (Malformed "") Hne Hd) as (v & Hv & Hpos & _).
  exists v. split; [exact Hv | exact Hpos].
Defined.

(** [every_id_has_a_path] at id 7. *)
Lemma every_id_has_a_path_witness :
  0 <= 7 <= int_max
  /\ handle_http {| r_Path := "/jobs/" ++ decimal 7; r_Method := "DELETE";
                    r_Body := Malformed "" |} =
     dispatch_job 7 "DELETE" (Malformed "").
Proof.
  assert (0 <= 7 <= int_max) as Hid by (split; vm_compute; discriminate).
  split; [exact Hid |].
  exact (every_id_has_a_path 7 "DELETE" (Malformed "") Hid).
Defined.

(** [handle_http_not_found] at [/jobs/7/], a trailing slash after the id. *)
Lemma handle_http_not_found_witness :
  exec (handle_http {| r_Path := "/jobs/7/"; r_Method := "GET"; r_Body := Malformed "" |})
    one_job =
  Returned one_job {| code := StatusNotFound; written := Nothing |}.
Proof.
  apply handle_http_not_found; cbn [r_Path]; try discriminate.
  intros digits _ Hd Heq. cbv in Heq. injection Heq as Hdig.
  rewrite <- Hdig in Hd. vm_compute in Hd. discriminate.
Defined.

(** [handle_http_reads_only] at a GET of job 1. *)
Lemma handle_http_reads_only_witness :
  exists resp,
    exec (handle_http {| r_Path := "/jobs/1"; r_Method := "GET"; r_Body := Malformed "" |})
      one_job = Returned one_job resp.
Proof.
  apply handle_http_reads_only; cbn [r_Path r_Method].
  - discriminate.
  - intros [Hm | Hm]; discriminate.
Defined.

(** The README's third job without its query text: the identity filter. *)
Definition identity_job : HealthcheckQuery :=
  {| Id := 3; Url := "https://catfact.ninja/fact"; Method := "GET"; ExpectedStatus := 200;
     Frequency := 45 * Second;
     JqQuery_ := {| Query := Some {| Run := fun data => [data] |}; Expectation := "fact" |} |}.

(** [MarshalJSON_then_UnmarshalJSON] at that job: id 3 is written, id 0 is
    read back. *)
Lemma MarshalJSON_then_UnmarshalJSON_witness :
  time_ParseDuration (Duration_String (Frequency identity_job)) = inl (Frequency identity_job)
  /\ m_Id (MarshalJSON Duration_String (fun _ => ".") identity_job) = 3
  /\ Decode (Value (read_back (MarshalJSON Duration_String (fun _ => ".") identity_job)) None)
       HealthcheckQuery_zero = (set_Id identity_job 0, None).
Proof.
  assert (time_ParseDuration (Duration_String (Frequency identity_job)) =
          inl (Frequency identity_job)) as Hf by (vm_compute; reflexivity).
  split; [exact Hf |].
  destruct (MarshalJSON_then_UnmarshalJSON Duration_String (fun _ => ".") identity_job
              HealthcheckQuery_zero Hf) as [Hid Hback].
  - intros q [= <-]. vm_compute. reflexivity.
  - discriminate.
  - split; [exact Hid | exact Hback].
Defined.

Definition with_identity_query : payload :=
  {| d_Url := "https://catfact.ninja/fact"; d_Method := "GET"; d_ExpectedStatus := 200;
     d_Frequency := "45s";
     d_JqQuery := Some {| mq_Query := "."; mq_Expectation := "fact" |} |}.

(** [UnsafeNewJqQuery_as_decoded] at a body with the identity filter. *)
Lemma UnsafeNewJqQuery_as_decoded_witness :
  d_JqQuery with_identity_query = Some {| mq_Query := "."; mq_Expectation := "fact" |}
  /\ time_ParseDuration (d_Frequency with_identity_query) = inl (45 * Second)
  /\ JqQuery_ (Decode (Value with_identity_query None) HealthcheckQuery_zero).1 =
     JqQuery_ identity_job.
Proof.
  assert (time_ParseDuration (d_Frequency with_identity_query) = inl (45 * Second)) as Hf
    by (vm_compute; reflexivity).
  split; [reflexivity |]. split; [exact Hf |].
  exact (proj2 (UnsafeNewJqQuery_as_decoded with_identity_query None
                  {| mq_Query := "."; mq_Expectation := "fact" |} (45 * Second)
                  HealthcheckQuery_zero eq_refl Hf)).
Defined.
End MoreRuns.
